(** * Deal or No Deal: the board, the banker and the round controller

    A shallow embedding of [src/js/Board.js], [src/js/Banker.js] and of the
    [Game] class (second half of [src/js/Animator.js]), with the reaction
    chooser of the audio manager.

    Numbers.  JavaScript numbers are modelled by exact rationals [Q]: every
    sum, product and quotient below is the exact value of the corresponding
    source expression.  [Math.random()] is an explicit argument, and the
    [async]/[await] plumbing, the animations and the log calls, none of
    which touch the state that is modelled, are left out. *)

From Stdlib Require Import ZArith QArith Qround Qminmax Lqa Lia List Permutation.
From stdpp Require Import strings gmap list.

Local Open Scope Q_scope.

(** ** JavaScript values and [Math] helpers *)

Module JS.

(** What an entry of an array of "remaining values" can be: a finite
    number, [NaN], or something whose [typeof] is not ['number']. *)
Inductive value : Type :=
| Num (q : Q)
| NaN
| Undefined.

Definition Qlt_bool (x y : Q) : bool := negb (Qle_bool y x).

(** [Math.round]: the nearest integer, halves going up. *)
Definition mathRound (x : Q) : Q := inject_Z (Qfloor (x + 0.5)).

(** [xs.reduce((a, b) => a + b, 0)] *)
Definition sum (xs : list Q) : Q := fold_left Qplus xs 0.

(** [xs.length] as a number. *)
Definition len {A : Type} (xs : list A) : Q := inject_Z (Z.of_nat (length xs)).

(** [Math.min(x, ...xs)] *)
Definition mathMin (x : Q) (xs : list Q) : Q := fold_left Qmin xs x.

(** [Math.max(x, ...xs)] *)
Definition mathMax (x : Q) (xs : list Q) : Q := fold_left Qmax xs x.

(** [xs.slice(-n)] *)
Definition sliceLast {A : Type} (n : nat) (xs : list A) : list A :=
  drop (length xs - n) xs.

End JS.

(** ** Banker.js *)

Module Banker.

Record t : Type := mk {
  offers : list Q;
  currentOffer : Q;
  offerNumber : nat;
  aggressiveness : Q
}.

(** [constructor] / [reset] *)
Definition reset : t :=
  {| offers := []; currentOffer := 0; offerNumber := 0; aggressiveness := 0.5 |}.

(** The predicate of the [filter] at the head of [calculateOffer]:
    [typeof value === 'number' && !isNaN(value) && value > 0]. *)
Definition isValid (v : JS.value) : bool :=
  match v with
  | JS.Num q => JS.Qlt_bool 0 q
  | JS.NaN | JS.Undefined => false
  end.

(** [remainingValues.filter(...)], the survivors read as numbers. *)
Definition validValues (remainingValues : list JS.value) : list Q :=
  omap (fun v => match v with
                 | JS.Num q => if isValid v then Some q else None
                 | _ => None
                 end) remainingValues.

Definition calculateExpectedValue (values : list Q) : Q :=
  match values with
  | [] => 0
  | _ => JS.sum values / JS.len values
  end.

Definition getRoundMultiplier (round : Z) (remainingCases : nat) : Q :=
  if (remainingCases <=? 2)%nat then 0.95
  else if (remainingCases <=? 3)%nat then 0.90
  else if (remainingCases <=? 5)%nat then 0.85
  else if (remainingCases <=? 10)%nat then 0.80
  else if (round =? 1)%Z then 0.25
  else if (round =? 2)%Z then 0.35
  else if (round =? 3)%Z then 0.45
  else if (round =? 4)%Z then 0.55
  else if (round =? 5)%Z then 0.65
  else if (round =? 6)%Z then 0.75
  else 0.70.

Definition getPsychologyMultiplier (b : t) (remainingValues : list Q) : Q :=
  let multiplier := 1 in
  let multiplier :=
    if (3 <? length (offers b))%nat then
      let recentOffers := JS.sliceLast 3 (offers b) in
      let avgRecentOffer := JS.sum recentOffers / JS.len recentOffers in
      let currentExpected := calculateExpectedValue remainingValues in
      if JS.Qlt_bool (currentExpected * 0.6) avgRecentOffer
      then multiplier * 1.1 else multiplier
    else multiplier in
  let highValues := filter (fun v => Qle_bool 100000 v = true) remainingValues in
  let lowValues := filter (fun v => JS.Qlt_bool v 1000 = true) remainingValues in
  let totalValues := remainingValues in
  let multiplier :=
    if JS.Qlt_bool 0.7 (JS.len highValues / JS.len totalValues)
    then multiplier * 1.05
    else if JS.Qlt_bool 0.5 (JS.len highValues / JS.len totalValues)
    then multiplier * 1.02
    else if JS.Qlt_bool 0.6 (JS.len lowValues / JS.len totalValues)
    then multiplier * 1.15
    else multiplier in
  if ((length totalValues <=? 3)%nat && (1 <=? length highValues)%nat)%bool
  then multiplier * 1.1 else multiplier.

(** [Math.sqrt(variance) / mean > k].  On a positive mean, which is what
    the valid values have, this is [variance > (k * mean)^2], and that is how
    the exact model decides it. *)
Definition coefficientOfVariationExceeds (variance mean k : Q) : bool :=
  JS.Qlt_bool ((k * mean) * (k * mean)) variance.

Definition getRiskMultiplier (remainingValues : list Q) : Q :=
  let mean := calculateExpectedValue remainingValues in
  let variance :=
    fold_left (fun sum value => sum + (value - mean) * (value - mean))
              remainingValues 0 / JS.len remainingValues in
  if coefficientOfVariationExceeds variance mean 2 then 0.85
  else if coefficientOfVariationExceeds variance mean 1.5 then 0.9
  else if coefficientOfVariationExceeds variance mean 1 then 0.95
  else 1.0.

Definition roundOffer (offer : Q) : Q :=
  if JS.Qlt_bool offer 100 then JS.mathRound (offer / 5) * 5
  else if JS.Qlt_bool offer 1000 then JS.mathRound (offer / 10) * 10
  else if JS.Qlt_bool offer 10000 then JS.mathRound (offer / 100) * 100
  else if JS.Qlt_bool offer 100000 then JS.mathRound (offer / 500) * 500
  else if JS.Qlt_bool offer 500000 then JS.mathRound (offer / 1000) * 1000
  else JS.mathRound (offer / 5000) * 5000.

(** *** The stages of [calculateOffer]

    Each definition is the value of the source's [offer] variable after the
    statement named in its comment; [validValues] is the filtered array. *)

(** [expectedValue * roundMultiplier * psychologyMultiplier * riskMultiplier] *)
Definition rawOffer (b : t) (validValues : list Q) (round : Z) : Q :=
  calculateExpectedValue validValues
  * getRoundMultiplier round (length validValues)
  * getPsychologyMultiplier b validValues
  * getRiskMultiplier validValues.

(** after [if (validValues.length <= 3) offer = Math.max(offer, expectedValue * 0.85)] *)
Definition competitiveOffer (b : t) (validValues : list Q) (round : Z) : Q :=
  let offer := rawOffer b validValues round in
  if (length validValues <=? 3)%nat
  then Qmax offer (calculateExpectedValue validValues * 0.85)
  else offer.

(** after [offer *= 0.95 + Math.random() * 0.1] and [offer = this.roundOffer(offer)] *)
Definition roundedOffer (b : t) (validValues : list Q) (round : Z) (random : Q) : Q :=
  let randomFactor := 0.95 + random * 0.1 in
  roundOffer (competitiveOffer b validValues round * randomFactor).

(** after [if (this.offers.length > 0 && round > 1) offer = Math.max(offer, lastOffer * 1.05)] *)
Definition progressedOffer (b : t) (validValues : list Q) (round : Z) (random : Q) : Q :=
  let offer := roundedOffer b validValues round random in
  match last (offers b) with
  | Some lastOffer =>
      if (1 <? round)%Z then Qmax offer (lastOffer * 1.05) else offer
  | None => offer
  end.

(** [expectedValue * (remainingValues.length <= 3 ? 0.95 : 0.85)]; the
    length read here is the one of the unfiltered array. *)
Definition maxOffer (remainingValues : list JS.value) : Q :=
  let maxOfferMultiplier :=
    if (length remainingValues <=? 3)%nat then 0.95 else 0.85 in
  calculateExpectedValue (validValues remainingValues) * maxOfferMultiplier.

(** after [offer = Math.min(offer, maxOffer)] *)
Definition cappedOffer (b : t) (remainingValues : list JS.value) (round : Z) (random : Q) : Q :=
  Qmin (progressedOffer b (validValues remainingValues) round random)
       (maxOffer remainingValues).

(** after the final safety check
    [if (offer <= 0) offer = Math.max(1, Math.min(...validValues) * 0.1)] *)
Definition safeOffer (b : t) (remainingValues : list JS.value) (round : Z) (random : Q) : Q :=
  let offer := cappedOffer b remainingValues round random in
  match validValues remainingValues with
  | v :: vs => if Qle_bool offer 0 then Qmax 1 (JS.mathMin v vs * 0.1) else offer
  | [] => offer
  end.

(** [calculateOffer(remainingValues, round)]: the number returned and the
    banker afterwards.  [random] is the value [Math.random()] returns in the
    call.  The two [isNaN(offer)] branches of the source are not modelled:
    exact arithmetic on positive numbers has no [NaN]. *)
Definition calculateOffer (b : t) (remainingValues : list JS.value) (round : Z) (random : Q)
  : Q * t :=
  match remainingValues with
  | [] => (0, b)
  | _ =>
      match validValues remainingValues with
      | [] => (1000, b)
      | _ =>
          let currentOffer := JS.mathRound (safeOffer b remainingValues round random) in
          (currentOffer,
           {| offers := offers b ++ [currentOffer];
              currentOffer := currentOffer;
              offerNumber := S (offerNumber b);
              aggressiveness := aggressiveness b |})
      end
  end.

(** [makeOffer]: the [amount] field of the object it returns.  The message
    and the formatted amount are presentation and are not modelled. *)
Definition makeOffer (b : t) (remainingValues : list JS.value) (round : Z) (random : Q)
  : Q * t :=
  calculateOffer b remainingValues round random.

Definition getCurrentOffer (b : t) : Q := currentOffer b.

(** The granularity [roundOffer] applies to an offer: the divisor of the
    branch the offer falls in. *)
Definition roundingStep (offer : Q) : Q :=
  if JS.Qlt_bool offer 100 then 5
  else if JS.Qlt_bool offer 1000 then 10
  else if JS.Qlt_bool offer 10000 then 100
  else if JS.Qlt_bool offer 100000 then 500
  else if JS.Qlt_bool offer 500000 then 1000
  else 5000.

Definition getOfferHistory (b : t) : list Q := offers b.

(** [this.aggressiveness = Math.max(0, Math.min(1, level))] *)
Definition setAggressiveness (level : Q) (b : t) : t :=
  {| offers := offers b; currentOffer := currentOffer b;
     offerNumber := offerNumber b;
     aggressiveness := Qmax 0 (Qmin 1 level) |}.

(** The object [getAnalysis] returns. *)
Module Analysis.

Record t : Type := mk {
  totalOffers : nat;
  maxOffer : Q;
  lastOffer : Q;
  avgOffer : Q;
  finalValue : Q;
  maxOfferDifference : Q;
  lastOfferDifference : Q;
  playerMadeGoodChoice : bool;
  offers : list Q
}.

End Analysis.

(** [getAnalysis(finalValue)]; [None] is the source's [null]. *)
Definition getAnalysis (b : t) (finalValue : Q) : option Analysis.t :=
  match offers b with
  | [] => None
  | o :: os =>
      let maxOffer := JS.mathMax o os in
      let lastOffer := default o (last (offers b)) in
      let avgOffer := JS.sum (offers b) / JS.len (offers b) in
      Some {| Analysis.totalOffers := length (offers b);
              Analysis.maxOffer := maxOffer;
              Analysis.lastOffer := lastOffer;
              Analysis.avgOffer := avgOffer;
              Analysis.finalValue := finalValue;
              Analysis.maxOfferDifference := finalValue - maxOffer;
              Analysis.lastOfferDifference := finalValue - lastOffer;
              Analysis.playerMadeGoodChoice := JS.Qlt_bool maxOffer finalValue;
              Analysis.offers := offers b |}
  end.

(** [simulateOffers(scenarios)]: the [map] over the scenarios, entered at
    [index].  A scenario is its [remainingValues] and the draw of
    [Math.random()] its call of [calculateOffer] makes; every call goes
    through the banker itself, so the banker is threaded along. *)
Fixpoint simulateOffersFrom (index : nat) (scenarios : list (list JS.value * Q))
    (b : t) : list Q * t :=
  match scenarios with
  | [] => ([], b)
  | (remainingValues, random) :: rest =>
      let r := calculateOffer b remainingValues (Z.of_nat (index + 1)) random in
      let rs := simulateOffersFrom (S index) rest (snd r) in
      (fst r :: fst rs, snd rs)
  end.

Definition simulateOffers (b : t) (scenarios : list (list JS.value * Q))
  : list Q * t :=
  simulateOffersFrom 0 scenarios b.





End Banker.

(** ** The reaction chooser of the audio manager *)

Module AudioManager.

(** [isGoodElimination(eliminatedValue, remainingValues)] *)
Definition isGoodElimination (eliminatedValue : Q) (remainingValues : list Q) : bool :=
  let lowThreshold := 1000 in
  let highThreshold := 100000 in
  let highValuesRemaining :=
    length (filter (fun v => Qle_bool highThreshold v = true) remainingValues) in
  let lowValuesRemaining :=
    length (filter (fun v => Qle_bool v lowThreshold = true) remainingValues) in
  if Qle_bool eliminatedValue lowThreshold then true
  else if (Qle_bool highThreshold eliminatedValue
           && (1 <? highValuesRemaining)%nat)%bool then false
  else if (Qle_bool 50000 eliminatedValue
           && (highValuesRemaining <? lowValuesRemaining)%nat)%bool then false
  else Qle_bool eliminatedValue 25000.

End AudioManager.

(** ** Board.js *)

Module Board.

Record briefcase : Type := mkCase {
  number : nat;
  isSelected : bool;
  isEliminated : bool;
  value : Q
}.

Definition setSelected (sel : bool) (c : briefcase) : briefcase :=
  {| number := number c; isSelected := sel;
     isEliminated := isEliminated c; value := value c |}.

Definition setEliminated (el : bool) (c : briefcase) : briefcase :=
  {| number := number c; isSelected := isSelected c;
     isEliminated := el; value := value c |}.

Definition setValue (v : Q) (c : briefcase) : briefcase :=
  {| number := number c; isSelected := isSelected c;
     isEliminated := isEliminated c; value := v |}.

(** The fields of a [Board], and [elements]: the case numbers for which the
    page holds an element with that [data-number], which is what
    [document.querySelector] is asked for. *)
Record t : Type := mk {
  briefcases : list briefcase;
  selectedCase : option nat;
  eliminatedCases : gset nat;
  values : list Q;
  caseValues : gmap nat Q;
  elements : list nat
}.

Definition withBriefcases (bs : list briefcase) (b : t) : t :=
  {| briefcases := bs; selectedCase := selectedCase b;
     eliminatedCases := eliminatedCases b; values := values b;
     caseValues := caseValues b; elements := elements b |}.

(** [this.values] of the constructor. *)
Definition denominations : list Q :=
  [0.01; 1; 5; 10; 25; 50; 75; 100; 200; 300; 400; 500; 750; 1000;
   5000; 10000; 25000; 50000; 75000; 100000; 200000;
   300000; 400000; 500000; 750000; 1000000].

(** What a call can do besides returning: [throw new Error(msg)]. *)
Inductive outcome (A : Type) : Type :=
| Return (a : A)
| Throw (msg : string).
Arguments Return {A} a.
Arguments Throw {A} msg.

Definition setupBriefcases (b : t) : t :=
  withBriefcases
    (map (fun i => {| number := i; isSelected := false;
                      isEliminated := false; value := 0 |}) (seq 1 26)) b.

(** [Math.floor(Math.random() * (i + 1))] *)
Definition randomIndex (random : Q) (i : nat) : nat :=
  Z.to_nat (Qfloor (random * inject_Z (Z.of_nat (i + 1)))).

(** [[a[i], a[j]] = [a[j], a[i]]].  Both indices are inside the array
    whenever [j] comes from [randomIndex] on a draw in [[0, 1)] and
    [i < a.length] (lemma [swap_inside] below), which is the only use the
    source makes of it; the model leaves the array alone otherwise. *)
Definition swap (a : list Q) (i j : nat) : list Q :=
  match a !! i, a !! j with
  | Some ai, Some aj => <[j := ai]> (<[i := aj]> a)
  | _, _ => a
  end.

(** The loop [for (i = ...; i > 0; i--)] of the Fisher-Yates shuffle, entered
    at [i]; [random i] is the draw of iteration [i]. *)
Fixpoint fisherYates (random : nat -> Q) (i : nat) (a : list Q) : list Q :=
  match i with
  | O => a
  | S i' => fisherYates random i' (swap a i (randomIndex (random i) i))
  end.

(** The body of the [forEach] that assigns the shuffled values. *)
Definition assignValue (shuffledValues : list Q) (index : nat) (c : briefcase)
  : briefcase :=
  match shuffledValues !! index with
  | None => setValue 1 c
  | Some v => setValue v c
  end.

Definition shuffleValues (random : nat -> Q) (b : t) : outcome t :=
  if negb (length (values b) =? length (briefcases b))%nat
  then Throw "Values and briefcases count mismatch"
  else
    let shuffledValues :=
      fisherYates random (length (values b) - 1) (values b) in
    let assigned := imap (assignValue shuffledValues) (briefcases b) in
    Return
      {| briefcases := assigned;
         selectedCase := selectedCase b;
         eliminatedCases := eliminatedCases b;
         values := values b;
         caseValues :=
           fold_left (fun m c => <[number c := value c]> m) assigned (caseValues b);
         elements := elements b |}.

(** [renderBoard]: one element per briefcase. *)
Definition renderBoard (b : t) : t :=
  {| briefcases := briefcases b; selectedCase := selectedCase b;
     eliminatedCases := eliminatedCases b; values := values b;
     caseValues := caseValues b; elements := map number (briefcases b) |}.

(** [new Board(animator)]: the constructor followed by [init()]. *)
Definition create (random : nat -> Q) : outcome t :=
  match shuffleValues random
          (setupBriefcases
             {| briefcases := []; selectedCase := None; eliminatedCases := ∅;
                values := denominations; caseValues := ∅; elements := [] |}) with
  | Return b => Return (renderBoard b)
  | Throw msg => Throw msg
  end.

Definition reset (random : nat -> Q) (b : t) : outcome t :=
  match shuffleValues random
          (setupBriefcases
             {| briefcases := briefcases b; selectedCase := None;
                eliminatedCases := ∅; values := values b; caseValues := ∅;
                elements := elements b |}) with
  | Return b' => Return (renderBoard b')
  | Throw msg => Throw msg
  end.

(** [this.briefcases.find(b => b.number === caseNumber)], with the position
    of the object found: the callers write through the reference. *)
Definition getBriefcase (b : t) (caseNumber : nat) : option (nat * briefcase) :=
  list_find (fun c => number c = caseNumber) (briefcases b).

(** [document.querySelector(`[data-number="${caseNumber}"]`)] is not null. *)
Definition hasElement (b : t) (caseNumber : nat) : bool :=
  bool_decide (caseNumber ∈ elements b).

Definition selectBriefcase (b : t) (caseNumber : nat) : bool * t :=
  match getBriefcase b caseNumber with
  | Some (i, c) =>
      if hasElement b caseNumber then
        (true,
         {| briefcases := <[i := setSelected true c]> (briefcases b);
            selectedCase := Some caseNumber;
            eliminatedCases := eliminatedCases b; values := values b;
            caseValues := caseValues b; elements := elements b |})
      else (false, b)
  | None => (false, b)
  end.

(** The result [None] is the source's [null]. *)
Definition eliminateBriefcase (b : t) (caseNumber : nat) : option Q * t :=
  match getBriefcase b caseNumber with
  | Some (i, c) =>
      if (negb (hasElement b caseNumber) || isEliminated c)%bool then (None, b)
      else
        (Some (value c),
         {| briefcases := <[i := setEliminated true c]> (briefcases b);
            selectedCase := selectedCase b;
            eliminatedCases := {[caseNumber]} ∪ eliminatedCases b;
            values := values b;
            caseValues := caseValues b; elements := elements b |})
  | None => (None, b)
  end.

Definition getRemainingValues (b : t) : list Q :=
  map value (filter (fun c => isEliminated c = false) (briefcases b)).

Definition getEliminatedValues (b : t) : list Q :=
  map value (filter (fun c => isEliminated c = true) (briefcases b)).

Definition getAvailableCases (b : t) : list nat :=
  map number
      (filter (fun c => isSelected c = false /\ isEliminated c = false) (briefcases b)).

Definition getSelectedCaseValue (b : t) : option Q :=
  match selectedCase b with
  | None => None
  | Some n =>
      match getBriefcase b n with
      | Some (_, c) => Some (value c)
      | None => None
      end
  end.

Definition getRemainingCasesCount (b : t) : nat :=
  length (filter (fun c => isEliminated c = false) (briefcases b)).

Definition isCaseAvailable (b : t) (caseNumber : nat) : bool :=
  match getBriefcase b caseNumber with
  | Some (_, c) => (negb (isSelected c) && negb (isEliminated c))%bool
  | None => false
  end.

(** [getRemainingCases]: not eliminated, not chosen. *)
Definition getRemainingCases (b : t) : list briefcase :=
  filter (fun c => isEliminated c = false /\ isSelected c = false) (briefcases b).

Definition getChosenCase (b : t) : option briefcase :=
  snd <$> list_find (fun c => isSelected c = true) (briefcases b).

(** [handleBriefcaseClick]: the case number of the [briefcaseClicked] event
    it dispatches, if it dispatches one. *)
Definition handleBriefcaseClick (b : t) (caseNumber : nat) : option nat :=
  match getBriefcase b caseNumber with
  | Some (_, c) => if isEliminated c then None else Some caseNumber
  | None => None
  end.

Definition switchPlayerCase (b : t) (newCaseNumber : nat) : t :=
  let deselected :=
    match list_find (fun c => isSelected c = true) (briefcases b) with
    | Some (i, currentSelected) =>
        <[i := setSelected false currentSelected]> (briefcases b)
    | None => briefcases b
    end in
  let selected :=
    match list_find (fun c => number c = newCaseNumber) deselected with
    | Some (j, newCase) => <[j := setSelected true newCase]> deselected
    | None => deselected
    end in
  withBriefcases selected b.

Definition isCaseSelected (b : t) (caseNumber : nat) : bool :=
  bool_decide (selectedCase b = Some caseNumber).

(** [getRandomAvailableCase]; [random] is the draw of [Math.random()].
    [None] is [null], and also the [undefined] an index past the end of
    [available] would read. *)
Definition getRandomAvailableCase (random : Q) (b : t) : option nat :=
  let available := getAvailableCases b in
  if (length available =? 0)%nat then None
  else available !! Z.to_nat (Qfloor (random * JS.len available)).

(** The object [getValueDistribution] returns. *)
Module Distribution.

Record t : Type := mk {
  total : nat;
  lowValues : nat;
  midValues : nat;
  highValues : nat;
  lowSum : Q;
  midSum : Q;
  highSum : Q;
  totalSum : Q
}.

End Distribution.


(** *** Two readings of a board, for the statements below *)

(** How many briefcases carry the [isSelected] flag. *)
Definition selectedCount (bs : list briefcase) : nat :=
  length (filter (fun c => isSelected c = true) bs).

(** The values of the briefcases, in board order. *)
Definition boardValues (b : t) : list Q := map value (briefcases b).

(** A board as [reset] leaves it: 26 briefcases numbered 1 to 26 in order,
    none selected or eliminated, an element for every number, and the
    case-value map holding the value of every briefcase under its number. *)
Definition fresh (b : t) : Prop :=
  map number (briefcases b) = seq 1 26
  /\ Forall (fun c => isSelected c = false /\ isEliminated c = false) (briefcases b)
  /\ selectedCase b = None
  /\ eliminatedCases b = ∅
  /\ elements b = seq 1 26
  /\ (forall c, c ∈ briefcases b -> caseValues b !! number c = Some (value c)).

(** The books of a board agree with its briefcases: the numbers and the
    elements are 1 to 26, the case-value map holds every briefcase's value,
    and the eliminated set holds the numbers of the eliminated briefcases. *)
Definition tracked (b : t) : Prop :=
  map number (briefcases b) = seq 1 26
  /\ elements b = seq 1 26
  /\ (forall c, c ∈ briefcases b -> caseValues b !! number c = Some (value c))
  /\ (forall c, c ∈ briefcases b ->
        (isEliminated c = true <-> number c ∈ eliminatedCases b)).

End Board.

(** ** The [Game] class *)

Module Game.

Inductive state : Type :=
| waiting
| selecting
| playing
| banker_offer
| game_over.

Record t : Type := mk {
  board : Board.t;
  banker : Banker.t;
  gameState : state;
  round : Z;
  casesToEliminate : nat;
  eliminatedThisRound : nat;
  currentEliminatedCase : option (nat * Q)
}.

Definition withBoard (bd : Board.t) (g : t) : t :=
  {| board := bd; banker := banker g; gameState := gameState g;
     round := round g; casesToEliminate := casesToEliminate g;
     eliminatedThisRound := eliminatedThisRound g;
     currentEliminatedCase := currentEliminatedCase g |}.

Definition withGameState (s : state) (g : t) : t :=
  {| board := board g; banker := banker g; gameState := s;
     round := round g; casesToEliminate := casesToEliminate g;
     eliminatedThisRound := eliminatedThisRound g;
     currentEliminatedCase := currentEliminatedCase g |}.

Definition withEliminatedThisRound (n : nat) (g : t) : t :=
  {| board := board g; banker := banker g; gameState := gameState g;
     round := round g; casesToEliminate := casesToEliminate g;
     eliminatedThisRound := n;
     currentEliminatedCase := currentEliminatedCase g |}.

Definition withCurrentEliminatedCase (c : option (nat * Q)) (g : t) : t :=
  {| board := board g; banker := banker g; gameState := gameState g;
     round := round g; casesToEliminate := casesToEliminate g;
     eliminatedThisRound := eliminatedThisRound g;
     currentEliminatedCase := c |}.

(** [new Game()]: the constructor, whose [init()] runs [startNewGame()];
    the board is shuffled by the [Board] constructor and again by
    [board.reset()]. *)
Definition startNewGame (random : nat -> Q) (g : t) : Board.outcome t :=
  match Board.reset random (board g) with
  | Board.Throw msg => Board.Throw msg
  | Board.Return bd =>
      Board.Return
        {| board := bd; banker := Banker.reset; gameState := selecting;
           round := 1; casesToEliminate := 6; eliminatedThisRound := 0;
           currentEliminatedCase := currentEliminatedCase g |}
  end.

Definition create (random0 random : nat -> Q) : Board.outcome t :=
  match Board.create random0 with
  | Board.Throw msg => Board.Throw msg
  | Board.Return bd =>
      startNewGame random
        {| board := bd; banker := Banker.reset; gameState := waiting;
           round := 1; casesToEliminate := 6; eliminatedThisRound := 0;
           currentEliminatedCase := None |}
  end.

Definition selectPlayerCase (g : t) (caseNumber : nat) : t :=
  withGameState playing
    (withBoard (snd (Board.selectBriefcase (board g) caseNumber)) g).

(** [eliminateCase] up to the point where it arms the timer that will run
    [handleContinueGame]. *)
Definition eliminateCase (g : t) (caseNumber : nat) : t :=
  if negb (Board.isCaseAvailable (board g) caseNumber) then g
  else
    match Board.eliminateBriefcase (board g) caseNumber with
    | (None, _) => g
    | (Some value, bd) =>
        withCurrentEliminatedCase (Some (caseNumber, value)) (withBoard bd g)
    end.

Definition endGame (g : t) : t := withGameState game_over g.

(** [offerSwitchOption]: the game ends when the player's case is not left
    with exactly one other; otherwise the switch dialog is put up, which
    changes no field of the game. *)
Definition offerSwitchOption (g : t) : t :=
  if negb (length (Board.getRemainingCases (board g)) =? 1)%nat
  then endGame g else g.

(** The array [endRound] reads from the board and hands to
    [banker.makeOffer]. *)
Definition remainingValuesForOffer (g : t) : list JS.value :=
  map JS.Num (Board.getRemainingValues (board g)).

Definition endRound (random : Q) (g : t) : t :=
  let g := withEliminatedThisRound 0 g in
  let totalRemainingCases := Board.getRemainingCasesCount (board g) in
  if (totalRemainingCases <=? 2)%nat then offerSwitchOption g
  else
    let remainingValues := remainingValuesForOffer g in
    let offer := Banker.makeOffer (banker g) remainingValues (round g) random in
    {| board := board g; banker := snd offer; gameState := banker_offer;
       round := round g; casesToEliminate := casesToEliminate g;
       eliminatedThisRound := eliminatedThisRound g;
       currentEliminatedCase := currentEliminatedCase g |}.

(** [handleContinueGame], run by the timer of [eliminateCase] (and by the
    [continueGame] event); [random] is the draw of the offer it may make. *)
Definition handleContinueGame (random : Q) (g : t) : t :=
  match currentEliminatedCase g with
  | None => g
  | Some _ =>
      let g := withEliminatedThisRound (S (eliminatedThisRound g)) g in
      let g :=
        if (casesToEliminate g <=? eliminatedThisRound g)%nat
        then endRound random g else g in
      withCurrentEliminatedCase None g
  end.

Definition handleDealAccepted (g : t) : t := withGameState game_over g.

Definition handleDealRejected (g : t) : t :=
  let remainingCases := Board.getRemainingCasesCount (board g) in
  {| board := board g; banker := banker g; gameState := playing;
     round := (round g + 1)%Z;
     casesToEliminate :=
       if (10 <? remainingCases)%nat then 5%nat
       else if (6 <? remainingCases)%nat then 4%nat
       else if (3 <? remainingCases)%nat then 2%nat
       else 1%nat;
     eliminatedThisRound := eliminatedThisRound g;
     currentEliminatedCase := currentEliminatedCase g |}.

(** The listener on [briefcaseClicked]. *)
Definition handleBriefcaseClick (g : t) (caseNumber : nat) : t :=
  match gameState g with
  | selecting => selectPlayerCase g caseNumber
  | playing => eliminateCase g caseNumber
  | _ => g
  end.

(** A click on a briefcase, as it travels from the board's listener to the
    game's. *)
Definition click (g : t) (caseNumber : nat) : t :=
  match Board.handleBriefcaseClick (board g) caseNumber with
  | Some n => handleBriefcaseClick g n
  | None => g
  end.

Definition handleSwitchDecision (switchChoice : bool) (remainingCase : Board.briefcase)
    (g : t) : t :=
  if switchChoice
  then withBoard (Board.switchPlayerCase (board g) (Board.number remainingCase)) g
  else g.

(** What can happen to a game once it has started: a click on a briefcase,
    the timer (or [continueGame] event) that runs [handleContinueGame], the
    two answers to an offer, and the answer to the switch dialog, which
    carries the briefcase the dialog was opened with. *)
Inductive event : Type :=
| Click (caseNumber : nat)
| ContinueGame (random : Q)
| DealAccepted
| DealRejected
| SwitchDecision (switchChoice : bool) (remainingCase : Board.briefcase).

Definition step (g : t) (e : event) : t :=
  match e with
  | Click caseNumber => click g caseNumber
  | ContinueGame random => handleContinueGame random g
  | DealAccepted => handleDealAccepted g
  | DealRejected => handleDealRejected g
  | SwitchDecision switchChoice remainingCase =>
      handleSwitchDecision switchChoice remainingCase g
  end.

Definition run (g : t) (events : list event) : t := fold_left step events g.

(** One game moves forward only. *)
Definition advances (g g' : t) : Prop :=
  (Board.getRemainingCasesCount (board g') <= Board.getRemainingCasesCount (board g))%nat
  /\ Board.eliminatedCases (board g) ⊆ Board.eliminatedCases (board g')
  /\ Banker.offers (banker g) `prefix_of` Banker.offers (banker g')
  /\ (round g <= round g')%Z.

End Game.

(** ** The design's table of round multipliers *)

Module Design.

(** The ramp indexed by the round. *)
Definition roundRamp : list Q := [0.25; 0.35; 0.45; 0.55; 0.65; 0.75].

(** The round multiplier in the words of the design: count thresholds
    first, then the ramp for rounds 1 to 6, else 0.70. *)
Definition roundMultiplierTable (round : Z) (remainingCount : nat) : Q :=
  if (remainingCount <=? 2)%nat then 0.95
  else if (remainingCount <=? 3)%nat then 0.90
  else if (remainingCount <=? 5)%nat then 0.85
  else if (remainingCount <=? 10)%nat then 0.80
  else if ((1 <=? round)%Z && (round <=? 6)%Z)%bool
       then nth (Z.to_nat (round - 1)) roundRamp 0.70
       else 0.70.

End Design.

(** ** A session, start to finish *)

Module Session.

(** Every draw of both shuffles is 0.5, and so is every jitter draw. *)
Definition draws : nat -> Q := fun _ => 0.5.

(** The fields of a [Game] before its constructor has run [init()]. *)
Definition blank : Game.t :=
  {| Game.board :=
       {| Board.briefcases := []; Board.selectedCase := None;
          Board.eliminatedCases := ∅; Board.values := Board.denominations;
          Board.caseValues := ∅; Board.elements := [] |};
     Game.banker := Banker.reset; Game.gameState := Game.waiting;
     Game.round := 1; Game.casesToEliminate := 6%nat;
     Game.eliminatedThisRound := 0%nat;
     Game.currentEliminatedCase := None |}.

Definition newGame : Game.t :=
  match Game.create draws draws with
  | Board.Return g => g
  | Board.Throw _ => blank
  end.

(** A click on an available briefcase, then the timer it armed. *)
Definition eliminate (caseNumber : nat) : list Game.event :=
  [Game.Click caseNumber; Game.ContinueGame 0.5].

(** The player takes briefcase 4, which holds 1000000. *)
Definition caseChosen : Game.t := Game.run newGame [Game.Click 4%nat].

(** ... and opens briefcase 1. *)
Definition oneOpened : Game.t := Game.run caseChosen (eliminate 1%nat).

(** Round one up to the sixth click; the timer that follows ends the round. *)
Definition beforeFirstOffer : Game.t :=
  Game.run caseChosen
    (concat (map eliminate [1; 2; 3; 5; 6]%nat) ++ [Game.Click 7%nat]).

(** The fifth offer is on the table: briefcases 4 (held), 24, 25 and 26
    are left. *)
Definition fifthOffer : Game.t :=
  Game.run beforeFirstOffer
    (Game.ContinueGame 0.5 :: Game.DealRejected
     :: concat (map eliminate [8; 9; 10; 11; 12]%nat)
     ++ Game.DealRejected :: concat (map eliminate [13; 14; 15; 16; 17]%nat)
     ++ Game.DealRejected :: concat (map eliminate [18; 19; 20; 21]%nat)
     ++ Game.DealRejected :: concat (map eliminate [22; 23]%nat)).

(** The switch dialog is up: briefcases 4 (held) and 26 are left. *)
Definition switchOffered : Game.t :=
  Game.run fifthOffer
    (Game.DealRejected :: concat (map eliminate [24; 25]%nat)).

(** The values in play at the first two offers of another session: six
    small amounts go in round one, the five largest in round two. *)
Definition afterRoundOne : list Q :=
  [75; 100; 200; 300; 400; 500; 750; 1000; 5000; 10000; 25000; 50000;
   75000; 100000; 200000; 300000; 400000; 500000; 750000; 1000000].

Definition afterRoundTwo : list Q :=
  [75; 100; 200; 300; 400; 500; 750; 1000; 5000; 10000; 25000; 50000;
   75000; 100000; 200000].

Definition firstOffer : Q * Banker.t :=
  Banker.calculateOffer Banker.reset (map JS.Num afterRoundOne) 1 0.5.

Definition secondOffer : Q * Banker.t :=
  Banker.calculateOffer (snd firstOffer) (map JS.Num afterRoundTwo) 2 0.5.

End Session.

(** * Properties *)

(** ** The banker *)

Section BankerFacts.

Import Banker Design Session.

Lemma getRoundMultiplier_eq_table (round : Z) (remainingCount : nat) :
  getRoundMultiplier round remainingCount = roundMultiplierTable round remainingCount.
Proof.
  unfold getRoundMultiplier, roundMultiplierTable.
  repeat (destruct (_ <=? _)%nat; [reflexivity|]).
  destruct (Z.leb_spec 1 round) as [Hlo|Hlo]; simpl.
  - destruct (Z.leb_spec round 6) as [Hhi|Hhi]; simpl.
    + assert (Hr : (round = 1 \/ round = 2 \/ round = 3 \/ round = 4
                    \/ round = 5 \/ round = 6)%Z) by lia.
      destruct Hr as [-> | [-> | [-> | [-> | [-> | ->] ] ] ] ]; reflexivity.
    + repeat match goal with
        | |- context [(round =? ?k)%Z] => destruct (Z.eqb_spec round k); [lia|]
      end; reflexivity.
  - repeat match goal with
        | |- context [(round =? ?k)%Z] => destruct (Z.eqb_spec round k); [lia|]
      end; reflexivity.
Qed.

Ltac round_cases :=
  unfold getRoundMultiplier;
  repeat match goal with
    | |- context [(?n <=? ?k)%nat] => destruct (Nat.leb_spec n k); try lia
    | |- context [(?r =? ?k)%Z] => destruct (Z.eqb_spec r k); try lia
    end;
  try reflexivity.

(** C8. For every round number and every count of remaining values,
    [getRoundMultiplier] is the step function of the design: 0.95, 0.90,
    0.85, 0.80 for counts up to 2, 3, 5, 10 whatever the round, and beyond
    that 0.25 ... 0.75 for rounds 1 to 6 and 0.70 for any other round. *)
Theorem getRoundMultiplier_table (round : Z) (remainingCount : nat) :
  getRoundMultiplier round remainingCount = roundMultiplierTable round remainingCount
  /\ ((remainingCount <= 2)%nat -> getRoundMultiplier round remainingCount = 0.95)
  /\ (remainingCount = 3%nat -> getRoundMultiplier round remainingCount = 0.90)
  /\ ((4 <= remainingCount <= 5)%nat -> getRoundMultiplier round remainingCount = 0.85)
  /\ ((6 <= remainingCount <= 10)%nat -> getRoundMultiplier round remainingCount = 0.80)
  /\ ((10 < remainingCount)%nat ->
      (round = 1%Z -> getRoundMultiplier round remainingCount = 0.25)
      /\ (round = 2%Z -> getRoundMultiplier round remainingCount = 0.35)
      /\ (round = 3%Z -> getRoundMultiplier round remainingCount = 0.45)
      /\ (round = 4%Z -> getRoundMultiplier round remainingCount = 0.55)
      /\ (round = 5%Z -> getRoundMultiplier round remainingCount = 0.65)
      /\ (round = 6%Z -> getRoundMultiplier round remainingCount = 0.75)
      /\ ((round < 1 \/ 6 < round)%Z -> getRoundMultiplier round remainingCount = 0.70)).
Proof.
  split; [apply getRoundMultiplier_eq_table|].
  repeat split; intros; round_cases.
Qed.

Lemma validValues_nil_iff (remainingValues : list JS.value) :
  validValues remainingValues = []
  <-> Forall (fun v => isValid v = false) remainingValues.
Proof.
  unfold validValues. induction remainingValues as [|v vs IH]; simpl.
  - split; auto.
  - destruct v as [q| |]; simpl.
    + destruct (JS.Qlt_bool 0 q) eqn:Hq; simpl.
      * split; [discriminate|]. intros H. inversion H; subst.
        simpl in *. congruence.
      * rewrite IH. split; intros H.
        -- constructor; [exact Hq|exact H].
        -- inversion H; assumption.
    + rewrite IH. split; intros H; [constructor; auto|inversion H; auto].
    + rewrite IH. split; intros H; [constructor; auto|inversion H; auto].
Qed.

(** C9. On an array that is empty or holds no valid value (no number that
    is positive), [calculateOffer] returns a constant: 0 for the empty
    array, 1000 otherwise.  It returns normally, and the banker (offer
    history, current offer, offer count) is left as it was. *)
Theorem calculateOffer_degrades (b : t) (remainingValues : list JS.value)
    (round : Z) (random : Q) :
  Forall (fun v => isValid v = false) remainingValues ->
  calculateOffer b remainingValues round random
  = (match remainingValues with [] => 0 | _ => 1000 end, b).
Proof.
  intros H. apply validValues_nil_iff in H.
  unfold calculateOffer. rewrite H.
  destruct remainingValues; reflexivity.
Qed.

Lemma calculateOffer_degrades_witness :
  calculateOffer reset [JS.NaN; JS.Num 0; JS.Undefined; JS.Num (-3)] 2 0.5
  = (1000, reset).
Proof.
  apply (calculateOffer_degrades reset
           [JS.NaN; JS.Num 0; JS.Undefined; JS.Num (-3)] 2 0.5).
  repeat constructor.
Defined.

Lemma Qlt_bool_iff (x y : Q) : JS.Qlt_bool x y = true <-> x < y.
Proof.
  unfold JS.Qlt_bool. rewrite negb_true_iff. split.
  - intros H. apply Qnot_le_lt. intros Hle.
    apply Qle_bool_iff in Hle. congruence.
  - intros H. destruct (Qle_bool y x) eqn:E; [|reflexivity].
    apply Qle_bool_iff in E. exfalso. exact (Qlt_not_le _ _ H E).
Qed.

Lemma mathRound_le (x y : Q) : x <= y -> JS.mathRound x <= JS.mathRound y.
Proof.
  intros H. unfold JS.mathRound. rewrite <- Zle_Qle.
  apply Qfloor_resp_le. lra.
Qed.

Lemma mathRound_upper (x : Q) : JS.mathRound x <= x + 0.5.
Proof. unfold JS.mathRound. apply Qfloor_le. Qed.

Lemma validValues_Num (vs : list Q) :
  Forall (fun v => 0 < v) vs -> validValues (map JS.Num vs) = vs.
Proof.
  unfold validValues. induction 1 as [|v vs Hv _ IH]; simpl; [reflexivity|].
  apply Qlt_bool_iff in Hv. rewrite Hv. simpl. f_equal. exact IH.
Qed.

(** With a valid value in the array, the call goes through every stage and
    records what it returns. *)
Lemma calculateOffer_valid (b : t) (remainingValues : list JS.value)
    (round : Z) (random : Q) :
  validValues remainingValues <> [] ->
  calculateOffer b remainingValues round random
  = (JS.mathRound (safeOffer b remainingValues round random),
     {| offers := offers b ++ [JS.mathRound (safeOffer b remainingValues round random)];
        currentOffer := JS.mathRound (safeOffer b remainingValues round random);
        offerNumber := S (offerNumber b);
        aggressiveness := aggressiveness b |}).
Proof.
  intros Hvalid. unfold calculateOffer.
  destruct remainingValues as [|v vs]; [contradiction Hvalid; reflexivity|].
  destruct (validValues (v :: vs)); [contradiction Hvalid; reflexivity|].
  reflexivity.
Qed.

(** The final safety check never lowers the offer. *)
Lemma safeOffer_ge_capped (b : t) (remainingValues : list JS.value)
    (round : Z) (random : Q) :
  validValues remainingValues <> [] ->
  cappedOffer b remainingValues round random
  <= safeOffer b remainingValues round random.
Proof.
  intros Hvalid. unfold safeOffer.
  destruct (validValues remainingValues) as [|v vs] eqn:E; [contradiction Hvalid; reflexivity|].
  destruct (Qle_bool _ 0) eqn:Hle; [|apply Qle_refl].
  apply Qle_bool_iff in Hle.
  pose proof (Q.le_max_l 1 (JS.mathMin v vs * 0.1)). lra.
Qed.

(** It leaves a positive offer alone. *)
Lemma safeOffer_positive (b : t) (remainingValues : list JS.value)
    (round : Z) (random : Q) :
  0 < cappedOffer b remainingValues round random ->
  safeOffer b remainingValues round random
  = cappedOffer b remainingValues round random.
Proof.
  intros Hpos. unfold safeOffer.
  destruct (validValues remainingValues); [reflexivity|].
  destruct (Qle_bool _ 0) eqn:Hle; [|reflexivity].
  apply Qle_bool_iff in Hle. lra.
Qed.

(** C1, as the code has it.  When [round > 1] and the history is not empty,
    the offer is raised to at least 1.05 times the preceding offer, and the
    ceiling and the final [Math.round] come after that: the offer returned
    is at least [Math.round] of the smaller of 1.05 times the preceding
    offer and the ceiling. *)
Theorem calculateOffer_progression (b : t) (remainingValues : list JS.value)
    (round : Z) (random lastOffer : Q) :
  validValues remainingValues <> [] ->
  (1 < round)%Z ->
  last (offers b) = Some lastOffer ->
  lastOffer * 1.05 <= progressedOffer b (validValues remainingValues) round random
  /\ JS.mathRound (Qmin (lastOffer * 1.05) (maxOffer remainingValues))
     <= fst (calculateOffer b remainingValues round random).
Proof.
  intros Hvalid Hround Hlast.
  assert (Hprog : lastOffer * 1.05
                  <= progressedOffer b (validValues remainingValues) round random).
  { unfold progressedOffer. rewrite Hlast.
    apply Z.ltb_lt in Hround. rewrite Hround. apply Q.le_max_r. }
  split; [exact Hprog|].
  rewrite calculateOffer_valid by exact Hvalid. simpl.
  apply mathRound_le.
  eapply Qle_trans; [|apply safeOffer_ge_capped; exact Hvalid].
  unfold cappedOffer. apply Q.min_le_compat_r. exact Hprog.
Qed.

(** C2, as the code has it.  On a non-empty array of positive numbers, the
    offer is at most 0.95 (three values or fewer) or 0.85 times the mean
    once the ceiling is applied; the [Math.round] that follows can add up to
    a half to a positive offer; and the floor of 0.85 times the mean, with
    three values or fewer, holds for the offer before the jitter. *)
Theorem calculateOffer_bounds (b : t) (vs : list Q) (round : Z) (random : Q) :
  vs <> [] ->
  Forall (fun v => 0 < v) vs ->
  let remainingValues := map JS.Num vs in
  let expectedValue := calculateExpectedValue vs in
  let ceiling := if (length vs <=? 3)%nat then 0.95 else 0.85 in
  cappedOffer b remainingValues round random <= expectedValue * ceiling
  /\ (0 < cappedOffer b remainingValues round random ->
      fst (calculateOffer b remainingValues round random)
      <= expectedValue * ceiling + 0.5)
  /\ ((length vs <= 3)%nat ->
      expectedValue * 0.85 <= competitiveOffer b vs round).
Proof.
  intros Hne Hpos remainingValues expectedValue ceiling.
  assert (Hvs : validValues remainingValues = vs) by (apply validValues_Num; exact Hpos).
  assert (Hcap : cappedOffer b remainingValues round random <= expectedValue * ceiling).
  { unfold cappedOffer, maxOffer. rewrite Hvs.
    unfold remainingValues. rewrite length_map. apply Q.le_min_r. }
  split; [exact Hcap|]. split.
  - intros Hp. rewrite calculateOffer_valid by (rewrite Hvs; exact Hne). simpl.
    rewrite (safeOffer_positive _ _ _ _ Hp).
    eapply Qle_trans; [apply mathRound_upper|]. lra.
  - intros Hlen. unfold competitiveOffer.
    apply Nat.leb_le in Hlen. rewrite Hlen. apply Q.le_max_r.
Qed.

(** C1 fails as stated: the second offer of this session, made in round 2
    after an offer of 38500, is 26538, the ceiling of 0.85 times the mean of
    what is left; 1.05 times the preceding offer is 40425. *)
Lemma calculateOffer_progression_capped :
  fst firstOffer = 38500
  /\ last (offers (snd firstOffer)) = Some 38500
  /\ fst secondOffer = 26538
  /\ fst secondOffer < 38500 * 1.05.
Proof. vm_compute. repeat split; reflexivity. Qed.

Lemma calculateOffer_progression_witness :
  38500 * 1.05
  <= progressedOffer (snd firstOffer) (validValues (map JS.Num afterRoundTwo)) 2 0.5
  /\ JS.mathRound (Qmin (38500 * 1.05) (maxOffer (map JS.Num afterRoundTwo)))
     <= fst (calculateOffer (snd firstOffer) (map JS.Num afterRoundTwo) 2 0.5).
Proof.
  apply (calculateOffer_progression
           (snd firstOffer) (map JS.Num afterRoundTwo) 2 0.5 38500).
  - vm_compute. discriminate.
  - lia.
  - vm_compute. reflexivity.
Defined.

(** C2 fails as stated, on both sides.  With 1, 5, 10 and 25 left the mean
    is 10.25 and the ceiling 8.7125, which [Math.round] takes to 9.  With
    0.01, 1 and 5 left the mean is 6.01/3; the offer rounds to 0 in steps
    of 5, the safety check replaces it by 1, and 0.85 times the mean is
    more than 1.7. *)
Lemma calculateOffer_bounds_broken :
  (fst (calculateOffer reset (map JS.Num [1; 5; 10; 25]) 1 0.5) = 9
   /\ calculateExpectedValue [1; 5; 10; 25] * 0.85 < 9)
  /\ (fst (calculateOffer reset (map JS.Num [0.01; 1; 5]) 1 0.5) = 1
      /\ 1 < calculateExpectedValue [0.01; 1; 5] * 0.85).
Proof. vm_compute. repeat split; reflexivity. Qed.

Lemma calculateOffer_bounds_witness :
  cappedOffer reset (map JS.Num [1000; 2000; 3000]) 1 0.5
  <= calculateExpectedValue [1000; 2000; 3000] * 0.95
  /\ (0 < cappedOffer reset (map JS.Num [1000; 2000; 3000]) 1 0.5 ->
      fst (calculateOffer reset (map JS.Num [1000; 2000; 3000]) 1 0.5)
      <= calculateExpectedValue [1000; 2000; 3000] * 0.95 + 0.5)
  /\ ((length [1000; 2000; 3000] <= 3)%nat ->
      calculateExpectedValue [1000; 2000; 3000] * 0.85
      <= competitiveOffer reset [1000; 2000; 3000] 1).
Proof.
  apply (calculateOffer_bounds reset [1000; 2000; 3000] 1 0.5).
  - discriminate.
  - repeat (constructor; [reflexivity|]). constructor.
Defined.

End BankerFacts.

(** ** The board *)

Section BoardFacts.

Import Board.

Lemma selectedCount_cons (c : briefcase) (bs : list briefcase) :
  selectedCount (c :: bs)
  = ((if isSelected c then 1 else 0) + selectedCount bs)%nat.
Proof.
  unfold selectedCount. rewrite filter_cons.
  destruct (decide (isSelected c = true)) as [E|E].
  - rewrite E. reflexivity.
  - destruct (isSelected c); [congruence|reflexivity].
Qed.

Lemma selectedCount_insert (bs : list briefcase) (i : nat) (c c' : briefcase) :
  bs !! i = Some c ->
  (selectedCount (<[i := c']> bs) + (if isSelected c then 1 else 0)
   = selectedCount bs + (if isSelected c' then 1 else 0))%nat.
Proof.
  revert i. induction bs as [|x bs IH]; intros [|i] Hi; simpl in *; try discriminate.
  - injection Hi as ->. rewrite !selectedCount_cons. lia.
  - rewrite !selectedCount_cons. specialize (IH i Hi). lia.
Qed.

Lemma selectedCount_zero (bs : list briefcase) (k : nat) (c : briefcase) :
  selectedCount bs = 0%nat -> bs !! k = Some c -> isSelected c = false.
Proof.
  revert k. induction bs as [|x bs IH]; intros [|k] Hz Hk; simpl in *; try discriminate.
  - injection Hk as ->. rewrite selectedCount_cons in Hz.
    destruct (isSelected c); [simpl in Hz; lia|reflexivity].
  - rewrite selectedCount_cons in Hz. apply (IH k); [lia|exact Hk].
Qed.

Lemma selectedCount_find (bs : list briefcase) :
  selectedCount bs <> 0%nat ->
  exists i c, list_find (fun c => isSelected c = true) bs = Some (i, c).
Proof.
  intros Hnz.
  destruct (list_find (fun c => isSelected c = true) bs) as [[i c]|] eqn:E; [eauto|].
  exfalso. apply Hnz. apply list_find_None in E. clear Hnz.
  unfold selectedCount. induction E as [|x l Hx _ IH]; [reflexivity|].
  rewrite filter_cons. destruct (decide (isSelected x = true)); [contradiction|exact IH].
Qed.

(** Writing a flag into a briefcase does not move the search by number. *)
Lemma find_number_insert (bs : list briefcase) (n i j : nat)
    (c0 c0' c : briefcase) :
  bs !! i = Some c0 ->
  number c0' = number c0 ->
  list_find (fun c => number c = n) bs = Some (j, c) ->
  list_find (fun c => number c = n) (<[i := c0']> bs)
  = Some (j, if decide (i = j) then c0' else c).
Proof.
  intros Hi Hnum Hfind.
  apply list_find_Some in Hfind as (Hj & Hn & Hbefore).
  apply list_find_Some. split; [|split].
  - destruct (decide (i = j)) as [->|Hij].
    + apply list_lookup_insert_eq. eapply lookup_lt_Some; eassumption.
    + rewrite list_lookup_insert_ne by exact Hij. exact Hj.
  - destruct (decide (i = j)) as [->|Hij]; [|exact Hn].
    rewrite Hnum. congruence.
  - intros k y Hk Hlt.
    destruct (decide (i = k)) as [->|Hik].
    + rewrite list_lookup_insert_eq in Hk by (eapply lookup_lt_Some; eassumption).
      injection Hk as <-. rewrite Hnum. eapply Hbefore; eassumption.
    + rewrite list_lookup_insert_ne in Hk by exact Hik.
      eapply Hbefore; eassumption.
Qed.

Lemma map_insert_same {B : Type} (f : briefcase -> B) (bs : list briefcase)
    (i : nat) (c c' : briefcase) :
  bs !! i = Some c -> f c' = f c -> map f (<[i := c']> bs) = map f bs.
Proof.
  revert i. induction bs as [|x bs IH]; intros [|i] Hi Hf; simpl in *;
    try discriminate; try reflexivity.
  - injection Hi as ->. rewrite Hf. reflexivity.
  - f_equal. eapply IH; eassumption.
Qed.

(** C10. On a board with exactly one selected briefcase, [switchPlayerCase]
    to an existing number writes two flags and nothing else: the briefcase
    that was selected is deselected, the one with the new number is
    selected.  Numbers, values and eliminated flags of all briefcases, the
    eliminated set, the case-value map and every other field stay as they
    were, and exactly one briefcase is selected afterwards. *)
Theorem switchPlayerCase_frame (b : t) (newCaseNumber j : nat) (newCase : briefcase) :
  selectedCount (briefcases b) = 1%nat ->
  getBriefcase b newCaseNumber = Some (j, newCase) ->
  let b' := switchPlayerCase b newCaseNumber in
  (exists i currentSelected,
      briefcases b !! i = Some currentSelected
      /\ isSelected currentSelected = true
      /\ briefcases b'
         = <[j := setSelected true newCase]>
             (<[i := setSelected false currentSelected]> (briefcases b)))
  /\ map number (briefcases b') = map number (briefcases b)
  /\ map value (briefcases b') = map value (briefcases b)
  /\ map isEliminated (briefcases b') = map isEliminated (briefcases b)
  /\ eliminatedCases b' = eliminatedCases b
  /\ caseValues b' = caseValues b
  /\ selectedCase b' = selectedCase b
  /\ values b' = values b
  /\ elements b' = elements b
  /\ selectedCount (briefcases b') = 1%nat.
Proof.
  intros Hone Hnew b'.
  destruct (selectedCount_find (briefcases b)) as (i & cur & Hcur); [lia|].
  pose proof Hcur as Hcur'.
  apply list_find_Some in Hcur' as (Hi & Hsel & _).
  set (deselected := <[i := setSelected false cur]> (briefcases b)).
  assert (Hfind : list_find (fun c => number c = newCaseNumber) deselected
                  = Some (j, if decide (i = j) then setSelected false cur else newCase)).
  { apply find_number_insert with (c0 := cur); auto. }
  assert (Hj : briefcases b !! j = Some newCase).
  { apply list_find_Some in Hnew as (H & _). exact H. }
  assert (Hbs : briefcases b' = <[j := setSelected true newCase]> deselected).
  { unfold b', switchPlayerCase. rewrite Hcur. fold deselected. rewrite Hfind.
    simpl. destruct (decide (i = j)) as [->|_]; [|reflexivity].
    assert (cur = newCase) by congruence. subst. reflexivity. }
  assert (Hdj : exists d, deselected !! j = Some d
                          /\ number d = number newCase
                          /\ value d = value newCase
                          /\ isEliminated d = isEliminated newCase).
  { apply list_find_Some in Hfind as (H & _). eexists. split; [exact H|].
    destruct (decide (i = j)) as [->|_]; [|auto].
    assert (cur = newCase) by congruence. subst. auto. }
  destruct Hdj as (d & Hd & Hdn & Hdv & Hde).
  assert (Hzero : selectedCount deselected = 0%nat).
  { pose proof (selectedCount_insert _ _ _ (setSelected false cur) Hi) as H.
    fold deselected in H. rewrite Hsel in H. simpl in H. lia. }
  split; [exists i, cur; auto|].
  rewrite Hbs.
  repeat split.
  - rewrite (map_insert_same number _ _ d) by auto.
    apply (map_insert_same number _ _ cur); auto.
  - rewrite (map_insert_same value _ _ d) by auto.
    apply (map_insert_same value _ _ cur); auto.
  - rewrite (map_insert_same isEliminated _ _ d) by auto.
    apply (map_insert_same isEliminated _ _ cur); auto.
  - pose proof (selectedCount_insert _ _ _ (setSelected true newCase) Hd) as H.
    rewrite (selectedCount_zero _ _ _ Hzero Hd) in H. simpl in H. lia.
Qed.

End BoardFacts.

(** ** Guards on selection and elimination *)

Section Guards.

Import Board.

Lemma isCaseAvailable_false (b : t) (caseNumber : nat) :
  isCaseAvailable b caseNumber = false
  <-> getBriefcase b caseNumber = None
      \/ exists i c, getBriefcase b caseNumber = Some (i, c)
                     /\ (isSelected c = true \/ isEliminated c = true).
Proof.
  unfold isCaseAvailable.
  destruct (getBriefcase b caseNumber) as [[i c]|]; [|split; auto].
  split.
  - intros H. right. exists i, c. split; [reflexivity|].
    destruct (isSelected c), (isEliminated c); auto; discriminate.
  - intros [H|(i' & c' & H & Hc)]; [discriminate|].
    injection H as <- <-. destruct Hc as [-> | ->]; [reflexivity|].
    apply andb_false_r.
Qed.

(** C5, as the code has it.  [eliminateBriefcase] marks a briefcase that
    exists and is not eliminated, selected or not, and returns its value; it
    returns [null] and leaves the board alone when the number is unknown or
    the briefcase already eliminated.  The selected briefcase is refused one
    level up: [Game.eliminateCase] does nothing unless [isCaseAvailable],
    that is, when the target is unknown, selected or eliminated. *)
Theorem eliminateBriefcase_guard (b : t) (caseNumber : nat) :
  (forall i c,
      getBriefcase b caseNumber = Some (i, c) ->
      hasElement b caseNumber = true ->
      isEliminated c = false ->
      eliminateBriefcase b caseNumber
      = (Some (value c),
         {| briefcases := <[i := setEliminated true c]> (briefcases b);
            selectedCase := selectedCase b;
            eliminatedCases := {[caseNumber]} ∪ eliminatedCases b;
            values := values b;
            caseValues := caseValues b;
            elements := elements b |}))
  /\ (forall i c,
         getBriefcase b caseNumber = Some (i, c) ->
         isEliminated c = true ->
         eliminateBriefcase b caseNumber = (None, b))
  /\ (getBriefcase b caseNumber = None ->
      eliminateBriefcase b caseNumber = (None, b))
  /\ (forall g : Game.t,
         Game.board g = b ->
         (getBriefcase b caseNumber = None
          \/ exists i c, getBriefcase b caseNumber = Some (i, c)
                         /\ (isSelected c = true \/ isEliminated c = true)) ->
         Game.eliminateCase g caseNumber = g).
Proof.
  repeat split.
  - intros i c Hget Hel Hne. unfold eliminateBriefcase.
    rewrite Hget, Hel, Hne. reflexivity.
  - intros i c Hget He. unfold eliminateBriefcase.
    rewrite Hget, He. rewrite orb_true_r. reflexivity.
  - intros Hget. unfold eliminateBriefcase. rewrite Hget. reflexivity.
  - intros g <- H. apply isCaseAvailable_false in H.
    unfold Game.eliminateCase. rewrite H. reflexivity.
Qed.

(** C7, as the code has it.  [selectBriefcase] returns [false] and leaves
    the board alone when no briefcase, or no element, has the number; on a
    briefcase that exists it sets the flag, records the number and returns
    [true], whatever the state of that briefcase or of the others.  An
    eliminated or unknown target is stopped before: the board's click
    handler dispatches nothing for it, and the game is left as it was. *)
Theorem selectBriefcase_guard (b : t) (caseNumber : nat) :
  (getBriefcase b caseNumber = None \/ hasElement b caseNumber = false ->
   selectBriefcase b caseNumber = (false, b))
  /\ (forall i c,
         getBriefcase b caseNumber = Some (i, c) ->
         hasElement b caseNumber = true ->
         selectBriefcase b caseNumber
         = (true,
            {| briefcases := <[i := setSelected true c]> (briefcases b);
               selectedCase := Some caseNumber;
               eliminatedCases := eliminatedCases b;
               values := values b;
               caseValues := caseValues b;
               elements := elements b |}))
  /\ (forall g : Game.t,
         Game.board g = b ->
         (getBriefcase b caseNumber = None
          \/ exists i c, getBriefcase b caseNumber = Some (i, c)
                         /\ isEliminated c = true) ->
         handleBriefcaseClick b caseNumber = None
         /\ Game.click g caseNumber = g).
Proof.
  split; [|split].
  - intros [Hget|Hel]; unfold selectBriefcase.
    + rewrite Hget. reflexivity.
    + destruct (getBriefcase b caseNumber) as [[i c]|]; [|reflexivity].
      rewrite Hel. reflexivity.
  - intros i c Hget Hel. unfold selectBriefcase. rewrite Hget, Hel. reflexivity.
  - intros g Hb Hcase.
    assert (Hclick : handleBriefcaseClick b caseNumber = None).
    { destruct Hcase as [Hget|(i & c & Hget & He)];
        unfold handleBriefcaseClick; rewrite Hget; [|rewrite He]; reflexivity. }
    split; [exact Hclick|].
    subst b. unfold Game.click. rewrite Hclick. reflexivity.
Qed.

End Guards.

(** ** The round controller *)

Section GameFacts.

Import Board.

Lemma remaining_split (bs : list briefcase) :
  length (filter (fun c => isEliminated c = false) bs)
  = (length (filter (fun c => isEliminated c = false /\ isSelected c = false) bs)
     + length (filter (fun c => isEliminated c = false /\ isSelected c = true) bs))%nat.
Proof.
  induction bs as [|c bs IH]; [reflexivity|].
  rewrite !filter_cons.
  destruct (isEliminated c) eqn:He, (isSelected c) eqn:Hs;
    repeat match goal with
           | |- context [decide ?P] => destruct (decide P)
           end;
    simpl; try lia; try congruence; try tauto;
    exfalso; intuition congruence.
Qed.

(** C3, as the code has it.  When [endRound] makes an offer, the array it
    hands to the banker holds the value of every briefcase that is not
    eliminated, the selected one included: it is one entry per such
    briefcase, so longer than the list of the others by the selected ones,
    and the value of a selected briefcase still in play is in it. *)
Theorem endRound_offer_input (random : Q) (g : Game.t) :
  (2 < getRemainingCasesCount (Game.board g))%nat ->
  Game.banker (Game.endRound random g)
  = snd (Banker.calculateOffer (Game.banker g)
           (Game.remainingValuesForOffer g) (Game.round g) random)
  /\ Game.remainingValuesForOffer g
     = map (fun c => JS.Num (value c))
           (filter (fun c => isEliminated c = false) (briefcases (Game.board g)))
  /\ length (Game.remainingValuesForOffer g)
     = (length (getRemainingCases (Game.board g))
        + length (filter (fun c => isEliminated c = false /\ isSelected c = true)
                         (briefcases (Game.board g))))%nat
  /\ (forall c, c ∈ briefcases (Game.board g) ->
                isSelected c = true -> isEliminated c = false ->
                JS.Num (value c) ∈ Game.remainingValuesForOffer g).
Proof.
  intros Hcount. split; [|split; [|split]].
  - unfold Game.endRound. simpl.
    destruct (Nat.leb_spec (getRemainingCasesCount (Game.board g)) 2) as [H|_]; [lia|].
    reflexivity.
  - unfold Game.remainingValuesForOffer, getRemainingValues.
    rewrite map_map. reflexivity.
  - unfold Game.remainingValuesForOffer, getRemainingValues, getRemainingCases.
    rewrite !length_map. apply remaining_split.
  - intros c Hin Hsel Hel.
    unfold Game.remainingValuesForOffer, getRemainingValues.
    rewrite map_map.
    apply (list_elem_of_fmap (fun c => JS.Num (value c))).
    exists c. split; [reflexivity|].
    apply list_elem_of_filter. auto.
Qed.

(** C4, as the code has it.  [handleDealRejected] picks the quota from
    the count of briefcases that are not eliminated, the selected one
    included: 5 above 10, 4 above 6, 2 above 3, else 1.  It moves to the next
    round, and does not write [eliminatedThisRound]: that counter is 0 after
    a rejected offer because [endRound] cleared it before making the offer. *)
Theorem handleDealRejected_quota (g : Game.t) :
  let remainingCases := getRemainingCasesCount (Game.board g) in
  let g' := Game.handleDealRejected g in
  remainingCases
  = (length (getRemainingCases (Game.board g))
     + length (filter (fun c => isEliminated c = false /\ isSelected c = true)
                      (briefcases (Game.board g))))%nat
  /\ ((10 < remainingCases)%nat -> Game.casesToEliminate g' = 5%nat)
  /\ ((6 < remainingCases <= 10)%nat -> Game.casesToEliminate g' = 4%nat)
  /\ ((3 < remainingCases <= 6)%nat -> Game.casesToEliminate g' = 2%nat)
  /\ ((remainingCases <= 3)%nat -> Game.casesToEliminate g' = 1%nat)
  /\ Game.round g' = (Game.round g + 1)%Z
  /\ Game.gameState g' = Game.playing
  /\ Game.eliminatedThisRound g' = Game.eliminatedThisRound g
  /\ (forall random,
         Game.eliminatedThisRound (Game.handleDealRejected (Game.endRound random g))
         = 0%nat).
Proof.
  intros remainingCases g'.
  split; [apply remaining_split|].
  unfold g', Game.handleDealRejected. simpl. fold remainingCases.
  repeat split.
  - intros H. destruct (Nat.ltb_spec 10 remainingCases); [reflexivity|lia].
  - intros H. destruct (Nat.ltb_spec 10 remainingCases); [lia|].
    destruct (Nat.ltb_spec 6 remainingCases); [reflexivity|lia].
  - intros H. destruct (Nat.ltb_spec 10 remainingCases); [lia|].
    destruct (Nat.ltb_spec 6 remainingCases); [lia|].
    destruct (Nat.ltb_spec 3 remainingCases); [reflexivity|lia].
  - intros H. destruct (Nat.ltb_spec 10 remainingCases); [lia|].
    destruct (Nat.ltb_spec 6 remainingCases); [lia|].
    destruct (Nat.ltb_spec 3 remainingCases); [lia|reflexivity].
  - intros random. unfold Game.endRound. simpl.
    destruct (_ <=? 2)%nat; [|reflexivity].
    unfold Game.offerSwitchOption. simpl.
    destruct (negb _); reflexivity.
Qed.

End GameFacts.

(** ** Conservation of the values *)

Section ValueConservation.

Import Board.

Lemma randomIndex_range (random : Q) (i : nat) :
  0 <= random < 1 -> (randomIndex random i <= i)%nat.
Proof.
  intros [Hlo Hhi]. unfold randomIndex.
  set (n := inject_Z (Z.of_nat (i + 1))).
  assert (Hn : 0 < n).
  { unfold n. replace 0 with (inject_Z 0) by reflexivity.
    rewrite <- Zlt_Qlt. lia. }
  assert (Hup : inject_Z (Qfloor (random * n)) < n).
  { eapply Qle_lt_trans; [apply Qfloor_le|]. nra. }
  assert (Hdown : (0 <= Qfloor (random * n))%Z).
  { change 0%Z with (Qfloor 0). apply Qfloor_resp_le. nra. }
  unfold n in Hup at 2. rewrite <- Zlt_Qlt in Hup.
  lia.
Qed.

(** On an index that [randomIndex] can return, the model's [swap] is the
    exchange the source performs. *)
Lemma swap_inside (a : list Q) (i j : nat) :
  (i < length a)%nat -> (j <= i)%nat ->
  exists ai aj,
    a !! i = Some ai /\ a !! j = Some aj
    /\ swap a i j = <[j := ai]> (<[i := aj]> a).
Proof.
  intros Hi Hj.
  destruct (lookup_lt_is_Some_2 a i Hi) as [ai Hai].
  destruct (lookup_lt_is_Some_2 a j ltac:(lia)) as [aj Haj].
  exists ai, aj. unfold swap. rewrite Hai, Haj. auto.
Qed.

Lemma swap_perm (random : Q) (a : list Q) (i : nat) :
  0 <= random < 1 -> (i < length a)%nat ->
  swap a i (randomIndex random i) ≡ₚ a.
Proof.
  intros Hr Hi.
  destruct (swap_inside a i (randomIndex random i) Hi (randomIndex_range _ _ Hr))
    as (ai & aj & Hai & Haj & ->).
  apply Permutation_insert_swap; assumption.
Qed.

Lemma fisherYates_perm (random : nat -> Q) (i : nat) (a : list Q) :
  (forall k, 0 <= random k < 1) ->
  (i <= length a - 1)%nat ->
  fisherYates random i a ≡ₚ a.
Proof.
  intros Hr. revert a. induction i as [|i IH]; intros a Hi; simpl; [reflexivity|].
  assert (Hswap : swap a (S i) (randomIndex (random (S i)) (S i)) ≡ₚ a)
    by (apply swap_perm; [apply Hr|lia]).
  rewrite IH; [exact Hswap|].
  rewrite (Permutation_length Hswap). lia.
Qed.

Lemma assigned_values (shuffledValues : list Q) (bs : list briefcase) :
  length shuffledValues = length bs ->
  map value (imap (assignValue shuffledValues) bs) = shuffledValues.
Proof.
  intros Hlen. apply list_eq. intros k.
  rewrite list_lookup_fmap, list_lookup_imap.
  destruct (bs !! k) as [c|] eqn:Hk; simpl.
  - unfold assignValue.
    destruct (shuffledValues !! k) as [v|] eqn:Hv; [reflexivity|].
    apply lookup_lt_Some in Hk. apply lookup_ge_None in Hv. lia.
  - apply lookup_ge_None in Hk. symmetry. apply lookup_ge_None. lia.
Qed.

Lemma shuffleValues_perm (random : nat -> Q) (b : t) :
  (forall k, 0 <= random k < 1) ->
  length (values b) = length (briefcases b) ->
  exists b',
    shuffleValues random b = Return b'
    /\ boardValues b' ≡ₚ values b
    /\ values b' = values b.
Proof.
  intros Hr Hlen. unfold shuffleValues.
  rewrite Hlen, Nat.eqb_refl. simpl.
  assert (Hperm : fisherYates random (length (briefcases b) - 1) (values b)
                  ≡ₚ values b)
    by (apply fisherYates_perm; [exact Hr|lia]).
  eexists. split; [reflexivity|]. split; [|reflexivity].
  unfold boardValues. simpl.
  rewrite assigned_values; [exact Hperm|].
  rewrite (Permutation_length Hperm). exact Hlen.
Qed.

Lemma reset_perm (random : nat -> Q) (b : t) :
  (forall k, 0 <= random k < 1) ->
  length (values b) = 26%nat ->
  exists b',
    reset random b = Return b'
    /\ boardValues b' ≡ₚ values b
    /\ values b' = values b.
Proof.
  intros Hr Hlen. unfold reset.
  destruct (shuffleValues_perm random
              (setupBriefcases
                 {| briefcases := briefcases b; selectedCase := None;
                    eliminatedCases := ∅; values := values b; caseValues := ∅;
                    elements := elements b |}) Hr)
    as (b' & Hb' & Hperm & Hvals); [exact Hlen|].
  rewrite Hb'. exists (renderBoard b'). split; [reflexivity|].
  split; [exact Hperm|exact Hvals].
Qed.

Lemma create_perm (random : nat -> Q) :
  (forall k, 0 <= random k < 1) ->
  exists b,
    create random = Return b
    /\ boardValues b ≡ₚ denominations
    /\ values b = denominations.
Proof.
  intros Hr. unfold create.
  destruct (shuffleValues_perm random
              (setupBriefcases
                 {| briefcases := []; selectedCase := None; eliminatedCases := ∅;
                    values := denominations; caseValues := ∅; elements := [] |}) Hr)
    as (b' & Hb' & Hperm & Hvals); [reflexivity|].
  rewrite Hb'. exists (renderBoard b'). split; [reflexivity|].
  split; [exact Hperm|exact Hvals].
Qed.

Lemma selectBriefcase_values (b : t) (n : nat) :
  boardValues (snd (selectBriefcase b n)) = boardValues b.
Proof.
  unfold selectBriefcase, getBriefcase.
  destruct (list_find _ _) as [[i c]|] eqn:E; [|reflexivity].
  destruct (hasElement b n); [|reflexivity].
  apply list_find_Some in E as (Hi & _).
  apply (map_insert_same value _ _ c); auto.
Qed.

Lemma eliminateBriefcase_values (b : t) (n : nat) :
  boardValues (snd (eliminateBriefcase b n)) = boardValues b.
Proof.
  unfold eliminateBriefcase, getBriefcase.
  destruct (list_find _ _) as [[i c]|] eqn:E; [|reflexivity].
  destruct (_ || _)%bool; [reflexivity|].
  apply list_find_Some in E as (Hi & _).
  apply (map_insert_same value _ _ c); auto.
Qed.

Lemma switchPlayerCase_values (b : t) (n : nat) :
  boardValues (switchPlayerCase b n) = boardValues b.
Proof.
  unfold switchPlayerCase, boardValues. simpl.
  set (deselected := match list_find _ (briefcases b) with
                     | Some (i, c) => _ | None => _ end).
  assert (Hd : map value deselected = map value (briefcases b)).
  { unfold deselected.
    destruct (list_find _ (briefcases b)) as [[i c]|] eqn:E; [|reflexivity].
    apply list_find_Some in E as (Hi & _).
    apply (map_insert_same value _ _ c); auto. }
  destruct (list_find _ deselected) as [[j c]|] eqn:E; [|exact Hd].
  apply list_find_Some in E as (Hj & _).
  rewrite (map_insert_same value _ _ c); auto.
Qed.

Lemma endRound_board (random : Q) (g : Game.t) :
  Game.board (Game.endRound random g) = Game.board g.
Proof.
  unfold Game.endRound. simpl.
  destruct (_ <=? 2)%nat; [|reflexivity].
  unfold Game.offerSwitchOption. destruct (negb _); reflexivity.
Qed.

Lemma step_values (g : Game.t) (e : Game.event) :
  boardValues (Game.board (Game.step g e)) = boardValues (Game.board g).
Proof.
  destruct e as [n|random| | |choice rc]; simpl.
  - unfold Game.click. destruct (handleBriefcaseClick _ _); [|reflexivity].
    unfold Game.handleBriefcaseClick.
    destruct (Game.gameState g); try reflexivity.
    + apply selectBriefcase_values.
    + unfold Game.eliminateCase.
      destruct (negb _); [reflexivity|].
      pose proof (eliminateBriefcase_values (Game.board g) n0) as H.
      destruct (eliminateBriefcase (Game.board g) n0) as [[v|] bd]; [exact H|reflexivity].
  - unfold Game.handleContinueGame.
    destruct (Game.currentEliminatedCase g); [|reflexivity]. simpl.
    destruct (_ <=? _)%nat; [|reflexivity].
    rewrite endRound_board. reflexivity.
  - reflexivity.
  - reflexivity.
  - unfold Game.handleSwitchDecision. destruct choice; [|reflexivity].
    apply switchPlayerCase_values.
Qed.

Lemma run_values (events : list Game.event) (g : Game.t) :
  boardValues (Game.board (Game.run g events)) = boardValues (Game.board g).
Proof.
  unfold Game.run. revert g.
  induction events as [|e events IH]; intros g; simpl; [reflexivity|].
  rewrite IH. apply step_values.
Qed.

#[local] Instance Q_eq_dec : EqDecision Q.
Proof. solve_decision. Defined.

Lemma denominations_NoDup : NoDup denominations.
Proof. apply (bool_decide_unpack _). vm_compute. exact I. Qed.

(** C6. A game starts (the two shuffles: the board's constructor, then
    [startNewGame]) without error, and from then on, after any sequence of
    clicks, timers, answers to offers and switch decisions, the values of the
    26 briefcases are the 26 denominations, each exactly once. *)
Theorem values_conserved (random0 random : nat -> Q) :
  (forall i, 0 <= random0 i < 1) ->
  (forall i, 0 <= random i < 1) ->
  exists g0,
    Game.create random0 random = Return g0
    /\ forall events,
        let b := Game.board (Game.run g0 events) in
        boardValues b ≡ₚ denominations
        /\ length (briefcases b) = 26%nat
        /\ NoDup (boardValues b).
Proof.
  intros Hr0 Hr. unfold Game.create.
  destruct (create_perm random0 Hr0) as (b0 & Hb0 & _ & Hv0).
  rewrite Hb0. unfold Game.startNewGame. simpl.
  destruct (reset_perm random b0 Hr) as (b1 & Hb1 & Hperm & Hv1);
    [rewrite Hv0; reflexivity|].
  rewrite Hb1. eexists. split; [reflexivity|].
  intros events. set (b := Game.board (Game.run _ events)).
  assert (Hvals : boardValues b ≡ₚ denominations).
  { unfold b. rewrite run_values. simpl. rewrite Hperm. rewrite Hv0. reflexivity. }
  split; [exact Hvals|]. split.
  - apply Permutation_length in Hvals. unfold boardValues in Hvals.
    rewrite length_map in Hvals. exact Hvals.
  - rewrite Hvals. apply denominations_NoDup.
Qed.

End ValueConservation.

Section Sessions.

Import Session.

Lemma newGame_created : Game.create draws draws = Board.Return newGame.
Proof. vm_compute. reflexivity. Qed.

(** C3 fails as stated: at the first offer of this session the array given
    to the banker has 20 entries, the first of them the 1000000 of the held
    briefcase, while 19 briefcases other than the held one are in play.  The
    offer is 34500; on the 19 values it would have been 24500. *)
Lemma first_offer_counts_held_case :
  Board.getSelectedCaseValue (Game.board beforeFirstOffer) = Some 1000000
  /\ Game.remainingValuesForOffer beforeFirstOffer !! 0%nat = Some (JS.Num 1000000)
  /\ length (Game.remainingValuesForOffer beforeFirstOffer) = 20%nat
  /\ length (Board.getRemainingCases (Game.board beforeFirstOffer)) = 19%nat
  /\ Banker.offers
       (Game.banker (Game.step beforeFirstOffer (Game.ContinueGame 0.5)))
     = [34500]
  /\ fst (Banker.calculateOffer Banker.reset
            (map (fun c => JS.Num (Board.value c))
                 (Board.getRemainingCases (Game.board beforeFirstOffer)))
            1 0.5)
     = 24500.
Proof. vm_compute. repeat split; reflexivity. Qed.

Lemma endRound_offer_input_witness :
  Game.banker (Game.endRound 0.5 beforeFirstOffer)
  = snd (Banker.calculateOffer (Game.banker beforeFirstOffer)
           (Game.remainingValuesForOffer beforeFirstOffer)
           (Game.round beforeFirstOffer) 0.5)
  /\ Game.remainingValuesForOffer beforeFirstOffer
     = map (fun c => JS.Num (Board.value c))
           (filter (fun c => Board.isEliminated c = false)
                   (Board.briefcases (Game.board beforeFirstOffer)))
  /\ length (Game.remainingValuesForOffer beforeFirstOffer)
     = (length (Board.getRemainingCases (Game.board beforeFirstOffer))
        + length (filter (fun c => Board.isEliminated c = false
                                   /\ Board.isSelected c = true)
                         (Board.briefcases (Game.board beforeFirstOffer))))%nat
  /\ (forall c, c ∈ Board.briefcases (Game.board beforeFirstOffer) ->
                Board.isSelected c = true -> Board.isEliminated c = false ->
                JS.Num (Board.value c) ∈ Game.remainingValuesForOffer beforeFirstOffer).
Proof.
  apply (endRound_offer_input 0.5 beforeFirstOffer).
  vm_compute. lia.
Defined.

(** C4 fails as stated: when the fifth offer is rejected, three briefcases
    other than the held one are in play, for which the claim's table gives
    a quota of 1; the game asks for 2, from the count of 4 that includes the
    held briefcase. *)
Lemma fifth_rejection_quota :
  Game.gameState fifthOffer = Game.banker_offer
  /\ length (Board.getRemainingCases (Game.board fifthOffer)) = 3%nat
  /\ Board.getRemainingCasesCount (Game.board fifthOffer) = 4%nat
  /\ Game.casesToEliminate (Game.step fifthOffer Game.DealRejected) = 2%nat.
Proof. vm_compute. repeat split; reflexivity. Qed.

Lemma handleDealRejected_quota_witness :
  Game.casesToEliminate (Game.handleDealRejected fifthOffer) = 2%nat.
Proof.
  pose proof (handleDealRejected_quota fifthOffer) as H. cbv zeta in H.
  destruct H as (_ & _ & _ & Hquota & _).
  apply Hquota. vm_compute. lia.
Defined.

(** C5 fails as stated: right after the player has taken briefcase 4, the
    board's [eliminateBriefcase] opens that very briefcase and returns its
    1000000. *)
Lemma held_case_eliminated :
  Board.getChosenCase (Game.board caseChosen)
  = Some (Board.mkCase 4 true false 1000000)
  /\ fst (Board.eliminateBriefcase (Game.board caseChosen) 4) = Some 1000000
  /\ Board.briefcases (snd (Board.eliminateBriefcase (Game.board caseChosen) 4)) !! 3%nat
     = Some (Board.mkCase 4 true true 1000000).
Proof. vm_compute. repeat split; reflexivity. Qed.

Lemma eliminateBriefcase_guard_witness :
  Board.eliminateBriefcase (Game.board oneOpened) 1 = (None, Game.board oneOpened)
  /\ Game.eliminateCase oneOpened 4 = oneOpened.
Proof.
  destruct (eliminateBriefcase_guard (Game.board oneOpened) 1) as (_ & Hopened & _).
  destruct (eliminateBriefcase_guard (Game.board oneOpened) 4) as (_ & _ & _ & Hheld).
  split.
  - apply (Hopened 0%nat (Board.mkCase 1 false true 0.01)).
    + vm_compute. reflexivity.
    + reflexivity.
  - apply Hheld; [reflexivity|].
    right. exists 3%nat, (Board.mkCase 4 true false 1000000).
    split; [vm_compute; reflexivity|left; reflexivity].
Defined.

(** C7 fails as stated: with briefcase 4 held and briefcase 1 opened,
    [selectBriefcase] on 1 returns [true] and flags the opened briefcase, so
    that two briefcases are selected. *)
Lemma eliminated_case_selected :
  Board.briefcases (Game.board oneOpened) !! 0%nat
  = Some (Board.mkCase 1 false true 0.01)
  /\ fst (Board.selectBriefcase (Game.board oneOpened) 1) = true
  /\ Board.briefcases (snd (Board.selectBriefcase (Game.board oneOpened) 1)) !! 0%nat
     = Some (Board.mkCase 1 true true 0.01)
  /\ Board.selectedCase (snd (Board.selectBriefcase (Game.board oneOpened) 1))
     = Some 1%nat
  /\ Board.selectedCount
       (Board.briefcases (snd (Board.selectBriefcase (Game.board oneOpened) 1)))
     = 2%nat.
Proof. vm_compute. repeat split; reflexivity. Qed.

Lemma selectBriefcase_guard_witness :
  Board.selectBriefcase (Game.board oneOpened) 27 = (false, Game.board oneOpened)
  /\ Board.handleBriefcaseClick (Game.board oneOpened) 1 = None
  /\ Game.click oneOpened 1 = oneOpened.
Proof.
  destruct (selectBriefcase_guard (Game.board oneOpened) 27) as (Hunknown & _).
  destruct (selectBriefcase_guard (Game.board oneOpened) 1) as (_ & _ & Hopened).
  split.
  - apply Hunknown. left. vm_compute. reflexivity.
  - apply (Hopened oneOpened); [reflexivity|].
    right. exists 0%nat, (Board.mkCase 1 false true 0.01).
    split; vm_compute; reflexivity.
Defined.

Lemma values_conserved_witness :
  exists g0,
    Game.create draws draws = Board.Return g0
    /\ forall events,
        let b := Game.board (Game.run g0 events) in
        Board.boardValues b ≡ₚ Board.denominations
        /\ length (Board.briefcases b) = 26%nat
        /\ NoDup (Board.boardValues b).
Proof.
  apply (values_conserved draws draws); intros i; unfold draws; split;
    discriminate || reflexivity.
Defined.

Lemma switchPlayerCase_frame_witness :
  Board.selectedCount
    (Board.briefcases (Board.switchPlayerCase (Game.board switchOffered) 26))
  = 1%nat.
Proof.
  assert (Hone : Board.selectedCount (Board.briefcases (Game.board switchOffered)) = 1%nat)
    by (vm_compute; reflexivity).
  assert (Hnew : Board.getBriefcase (Game.board switchOffered) 26
                 = Some (25%nat, Board.mkCase 26 false false 1000))
    by (vm_compute; reflexivity).
  pose proof (switchPlayerCase_frame _ _ _ _ Hone Hnew) as H. cbv zeta in H.
  destruct H as (_ & _ & _ & _ & _ & _ & _ & _ & _ & Hcount).
  exact Hcount.
Defined.

End Sessions.

(** * Further properties of the banker *)

Section BankerMore.

Import Banker.

Lemma mathRound_lower (x : Q) : x - 0.5 < JS.mathRound x.
Proof.
  unfold JS.mathRound.
  pose proof (Qlt_floor (x + 0.5)) as H.
  rewrite inject_Z_plus in H. change (inject_Z 1) with 1 in H. lra.
Qed.

Lemma roundOffer_step (offer : Q) :
  (exists k : Z, roundOffer offer = inject_Z k * roundingStep offer)
  /\ 2 * (offer - roundOffer offer) < roundingStep offer
  /\ 2 * (roundOffer offer - offer) <= roundingStep offer.
Proof.
  unfold roundOffer, roundingStep.
  repeat match goal with
         | |- context [if JS.Qlt_bool ?a ?b then _ else _] =>
             destruct (JS.Qlt_bool a b)
         end;
    (split; [eexists; unfold JS.mathRound; reflexivity|]);
    match goal with
    | |- context [JS.mathRound (?x / ?s)] =>
        pose proof (mathRound_lower (x / s));
        pose proof (mathRound_upper (x / s));
        assert (x == x / s * s) by (field; discriminate);
        generalize dependent (JS.mathRound (x / s));
        generalize dependent (x / s)
    end;
    intros; split; lra.
Qed.

(** X1. [roundOffer] returns a whole multiple of the step of the bracket the
    offer falls in (5, 10, 100, 500, 1000 or 5000), and the multiple nearest
    to the offer: it is within half a step, halves going up. *)
Theorem roundOffer_nearest (offer : Q) :
  (exists k : Z, roundOffer offer = inject_Z k * roundingStep offer)
  /\ 2 * (offer - roundOffer offer) < roundingStep offer
  /\ 2 * (roundOffer offer - offer) <= roundingStep offer.
Proof. apply roundOffer_step. Qed.

Lemma sum_shift (xs : list Q) (a : Q) : fold_left Qplus xs a == a + JS.sum xs.
Proof.
  unfold JS.sum. revert a. induction xs as [|x xs IH]; intros a; simpl.
  - lra.
  - rewrite (IH (a + x)), (IH (0 + x)). lra.
Qed.

Lemma sum_cons (x : Q) (xs : list Q) : JS.sum (x :: xs) == x + JS.sum xs.
Proof. unfold JS.sum at 1. simpl. rewrite sum_shift. lra. Qed.

Lemma len_cons {A : Type} (x : A) (xs : list A) : JS.len (x :: xs) == 1 + JS.len xs.
Proof.
  unfold JS.len. simpl length. rewrite Nat2Z.inj_succ, <- Z.add_1_l.
  rewrite inject_Z_plus. reflexivity.
Qed.

Lemma len_nonneg {A : Type} (xs : list A) : 0 <= JS.len xs.
Proof.
  unfold JS.len. change 0 with (inject_Z 0). rewrite <- Zle_Qle. lia.
Qed.

Lemma sum_between (lo hi : Q) (xs : list Q) :
  Forall (fun x => lo <= x <= hi) xs ->
  lo * JS.len xs <= JS.sum xs <= hi * JS.len xs.
Proof.
  induction 1 as [|x xs [Hlo Hhi] _ IH].
  - change (JS.sum []) with 0. change (JS.len (@nil Q)) with 0. split; lra.
  - destruct IH as [IHlo IHhi]. rewrite sum_cons, len_cons. split; nra.
Qed.

Lemma expectedValue_bounds (lo hi : Q) (values : list Q) :
  values <> [] ->
  Forall (fun x => lo <= x <= hi) values ->
  lo <= calculateExpectedValue values <= hi.
Proof.
  intros Hne Hall. unfold calculateExpectedValue.
  destruct values as [|v vs]; [contradiction Hne; reflexivity|].
  pose proof (sum_between lo hi (v :: vs) Hall) as [Hlo Hhi].
  assert (Hlen : 0 < JS.len (v :: vs)).
  { rewrite len_cons. pose proof (len_nonneg vs). lra. }
  split.
  - apply Qle_shift_div_l; assumption.
  - apply Qle_shift_div_r; assumption.
Qed.



Ltac split_ifs :=
  repeat match goal with
         | |- context [if ?c then _ else _] => destruct c
         end.

Lemma getRoundMultiplier_range (round : Z) (remainingCases : nat) :
  0.25 <= getRoundMultiplier round remainingCases <= 0.95.
Proof. unfold getRoundMultiplier. split_ifs; split; lra. Qed.

Lemma getRiskMultiplier_range (remainingValues : list Q) :
  0.85 <= getRiskMultiplier remainingValues <= 1.
Proof. unfold getRiskMultiplier. split_ifs; split; lra. Qed.

Lemma psychology_bounds (b : t) (remainingValues : list Q) :
  1 <= getPsychologyMultiplier b remainingValues <= 1.3915.
Proof. unfold getPsychologyMultiplier. split_ifs; split; lra. Qed.

(** X3. The psychology multiplier never lowers an offer and never raises it
    by more than 39.15 percent (1.1 x 1.15 x 1.1), whatever the history and
    the values. *)
Theorem getPsychologyMultiplier_range (b : t) (remainingValues : list Q) :
  1 <= getPsychologyMultiplier b remainingValues <= 1.3915.
Proof. apply psychology_bounds. Qed.

Lemma sum_positive (x : Q) (xs : list Q) :
  Forall (fun v => 0 < v) (x :: xs) -> 0 < JS.sum (x :: xs).
Proof.
  revert x. induction xs as [|y ys IH]; intros x H; inversion H; subst.
  - rewrite sum_cons. change (JS.sum []) with 0. lra.
  - rewrite sum_cons. specialize (IH y ltac:(assumption)). lra.
Qed.

Lemma calculateExpectedValue_positive (values : list Q) :
  values <> [] -> Forall (fun v => 0 < v) values ->
  0 < calculateExpectedValue values.
Proof.
  intros Hne Hpos. unfold calculateExpectedValue.
  destruct values as [|v vs]; [contradiction Hne; reflexivity|].
  apply Qlt_shift_div_l.
  - rewrite len_cons. pose proof (len_nonneg vs). lra.
  - pose proof (sum_positive v vs Hpos). lra.
Qed.

Lemma validValues_positive (remainingValues : list JS.value) :
  Forall (fun v => 0 < v) (validValues remainingValues).
Proof.
  unfold validValues. induction remainingValues as [|v vs IH]; simpl; [constructor|].
  destruct v as [q| |]; simpl; try exact IH.
  destruct (JS.Qlt_bool 0 q) eqn:Hq; simpl; [|exact IH].
  constructor; [apply Qlt_bool_iff; exact Hq|exact IH].
Qed.

Lemma roundingStep_ge_5 (offer : Q) : 5 <= roundingStep offer.
Proof. unfold roundingStep. split_ifs; lra. Qed.

Lemma competitiveOffer_range (b : t) (validValues : list Q) (round : Z) :
  0 < calculateExpectedValue validValues ->
  0 < competitiveOffer b validValues round
  /\ competitiveOffer b validValues round
     <= calculateExpectedValue validValues * 1.33.
Proof.
  intros Hev.
  pose proof (getRoundMultiplier_range round (length validValues)) as [Hr1 Hr2].
  pose proof (psychology_bounds b validValues) as [Hp1 Hp2].
  pose proof (getRiskMultiplier_range validValues) as [Hk1 Hk2].
  assert (Hraw : 0 < rawOffer b validValues round
                 /\ rawOffer b validValues round
                    <= calculateExpectedValue validValues * 1.33).
  { unfold rawOffer.
    set (e := calculateExpectedValue validValues) in *.
    set (r := getRoundMultiplier round (length validValues)) in *.
    set (p := getPsychologyMultiplier b validValues) in *.
    set (k := getRiskMultiplier validValues) in *.
    assert (H1 : 0 < r * p /\ r * p <= 0.95 * 1.3915) by (split; nra).
    destruct H1 as [H1 H2].
    assert (H3 : 0 < r * p * k /\ r * p * k <= 0.95 * 1.3915) by (split; nra).
    destruct H3 as [H3 H4].
    assert (Heq : e * r * p * k == e * (r * p * k)) by ring.
    rewrite Heq. clear Heq H1 H2.
    set (m := r * p * k) in *. clearbody m. split; nra. }
  destruct Hraw as [Hraw1 Hraw2].
  unfold competitiveOffer. destruct (_ <=? 3)%nat; [|auto].
  split.
  - eapply Qlt_le_trans; [exact Hraw1|apply Q.le_max_l].
  - apply Q.max_lub; [exact Hraw2|lra].
Qed.

(** X4. A first offer is never below 1: on an array with a valid value,
    when the history is empty or the round is not above 1, and for any draw
    of the jitter in [0, 1), [calculateOffer] returns at least 1. *)
Theorem first_offer_at_least_one (b : t) (remainingValues : list JS.value)
    (round : Z) (random : Q) :
  0 <= random < 1 ->
  validValues remainingValues <> [] ->
  offers b = [] \/ (round <= 1)%Z ->
  1 <= fst (calculateOffer b remainingValues round random).
Proof.
  intros [Hr0 Hr1] Hvalid Hfirst.
  rewrite calculateOffer_valid by exact Hvalid. simpl.
  change 1 with (JS.mathRound 1). apply mathRound_le.
  set (vs := validValues remainingValues) in *.
  assert (Hev : 0 < calculateExpectedValue vs)
    by (apply calculateExpectedValue_positive;
        [exact Hvalid|apply validValues_positive]).
  destruct (competitiveOffer_range b vs round Hev) as [Hc1 Hc2].
  assert (Hprog : progressedOffer b vs round random = roundedOffer b vs round random).
  { unfold progressedOffer. destruct Hfirst as [-> | Hround]; [reflexivity|].
    destruct (last (offers b)); [|reflexivity].
    destruct (Z.ltb_spec 1 round); [lia|reflexivity]. }
  assert (Hmax : calculateExpectedValue vs * 0.85 <= maxOffer remainingValues).
  { unfold maxOffer. fold vs. destruct (_ <=? 3)%nat; nra. }
  destruct (Qlt_le_dec 0 (cappedOffer b remainingValues round random)) as [Hpos|Hneg].
  - rewrite (safeOffer_positive _ _ _ _ Hpos).
    unfold cappedOffer in *. fold vs in Hpos |- *. rewrite Hprog in *.
    unfold roundedOffer in *.
    set (x := competitiveOffer b vs round * (0.95 + random * 0.1)) in *.
    destruct (roundOffer_step x) as ((k & Hk) & _ & Hup).
    pose proof (roundingStep_ge_5 x) as Hstep.
    assert (Hrpos : 0 < roundOffer x).
    { eapply Qlt_le_trans; [exact Hpos|apply Q.le_min_l]. }
    assert (Hk1 : 1 <= inject_Z k).
    { change 1 with (inject_Z 1). rewrite <- Zle_Qle.
      assert (0 < inject_Z k) by (rewrite Hk in Hrpos; nra).
      change 0 with (inject_Z 0) in H. rewrite <- Zlt_Qlt in H. lia. }
    assert (Hrstep : roundingStep x <= roundOffer x) by (rewrite Hk; nra).
    assert (Hx : x <= calculateExpectedValue vs * 1.4) by (unfold x; nra).
    apply Q.min_glb; lra.
  - unfold safeOffer. fold vs.
    destruct vs as [|v vs']; [contradiction Hvalid; reflexivity|].
    apply Qle_bool_iff in Hneg. rewrite Hneg. apply Q.le_max_l.
Qed.

Lemma first_offer_at_least_one_witness :
  1 <= fst (calculateOffer reset (map JS.Num [0.01; 1; 5]) 1 0.5).
Proof.
  apply (first_offer_at_least_one reset (map JS.Num [0.01; 1; 5]) 1 0.5).
  - split; discriminate || reflexivity.
  - vm_compute. discriminate.
  - left. reflexivity.
Defined.






(** [simulateOffers] answers every scenario, and every scenario goes through
    the banker's own history. *)
Lemma simulateOffersFrom_length (scenarios : list (list JS.value * Q))
    (index : nat) (b : t) :
  length (fst (simulateOffersFrom index scenarios b)) = length scenarios.
Proof.
  revert index b. induction scenarios as [|[rv random] rest IH]; intros index b.
  - reflexivity.
  - simpl. rewrite IH. reflexivity.
Qed.

Lemma simulateOffersFrom_history (scenarios : list (list JS.value * Q))
    (index : nat) (b : t) :
  Forall (fun s => validValues (fst s) <> []) scenarios ->
  offers (snd (simulateOffersFrom index scenarios b))
  = offers b ++ fst (simulateOffersFrom index scenarios b).
Proof.
  revert index b.
  induction scenarios as [|[rv random] rest IH]; intros index b Hall; simpl.
  - rewrite app_nil_r. reflexivity.
  - inversion Hall as [|? ? Hrv Hrest]; subst. simpl in Hrv.
    rewrite IH by exact Hrest.
    rewrite (calculateOffer_valid _ _ _ _ Hrv). simpl.
    rewrite <- app_assoc. reflexivity.
Qed.

(** X6. [simulateOffers] is not a dry run: it returns one offer per
    scenario, and when every scenario has a valid value, the offers it
    returns are appended, in order, to the banker's real history. *)
Theorem simulateOffers_writes_history (b : t)
    (scenarios : list (list JS.value * Q)) :
  Forall (fun s => validValues (fst s) <> []) scenarios ->
  length (fst (simulateOffers b scenarios)) = length scenarios
  /\ getOfferHistory (snd (simulateOffers b scenarios))
     = getOfferHistory b ++ fst (simulateOffers b scenarios).
Proof.
  intros Hall. split.
  - apply simulateOffersFrom_length.
  - apply simulateOffersFrom_history. exact Hall.
Qed.

Lemma simulateOffers_writes_history_witness :
  length (fst (simulateOffers reset
                 [(map JS.Num Session.afterRoundOne, 0.5);
                  (map JS.Num Session.afterRoundTwo, 0.5)])) = 2%nat
  /\ getOfferHistory
       (snd (simulateOffers reset
               [(map JS.Num Session.afterRoundOne, 0.5);
                (map JS.Num Session.afterRoundTwo, 0.5)]))
     = getOfferHistory reset
       ++ fst (simulateOffers reset
                 [(map JS.Num Session.afterRoundOne, 0.5);
                  (map JS.Num Session.afterRoundTwo, 0.5)]).
Proof.
  apply (simulateOffers_writes_history reset
           [(map JS.Num Session.afterRoundOne, 0.5);
            (map JS.Num Session.afterRoundTwo, 0.5)]).
  repeat (constructor; [vm_compute; discriminate|]). constructor.
Defined.

Lemma mathMax_spec (x : Q) (xs : list Q) :
  Forall (fun o => o <= JS.mathMax x xs) (x :: xs)
  /\ JS.mathMax x xs ∈ x :: xs.
Proof.
  unfold JS.mathMax. revert x.
  induction xs as [|y ys IH]; intros x; simpl.
  - split; [constructor; [apply Qle_refl|constructor]|apply list_elem_of_here].
  - destruct (IH (Qmax x y)) as [Hall Hin].
    inversion Hall as [|? ? Hhead Htail]; subst.
    split.
    + constructor; [|constructor; [|exact Htail]].
      * eapply Qle_trans; [apply Q.le_max_l|exact Hhead].
      * eapply Qle_trans; [apply Q.le_max_r|exact Hhead].
    + apply elem_of_cons in Hin as [Heq|Hin].
      * rewrite Heq. unfold Qmax, GenericMinMax.gmax.
        destruct (x ?= y); [left|right; left|left]; reflexivity.
      * right. right. exact Hin.
Qed.

(** X7. [getAnalysis] is [null] exactly on an empty history.  Otherwise its
    [maxOffer] is an offer of the history and no offer is above it, its
    [lastOffer] is the last offer made, and [playerMadeGoodChoice] holds
    exactly when the final value is above every offer that was made. *)
Theorem getAnalysis_spec (b : t) (finalValue : Q) :
  (getAnalysis b finalValue = None <-> offers b = [])
  /\ (forall a, getAnalysis b finalValue = Some a ->
        Analysis.maxOffer a ∈ offers b
        /\ Forall (fun o => o <= Analysis.maxOffer a) (offers b)
        /\ last (offers b) = Some (Analysis.lastOffer a)
        /\ Analysis.totalOffers a = length (offers b)
        /\ (Analysis.playerMadeGoodChoice a = true
            <-> Forall (fun o => o < finalValue) (offers b))).
Proof.
  unfold getAnalysis. destruct (offers b) as [|o os] eqn:Hoffers.
  - split; [tauto|discriminate].
  - split; [split; discriminate|].
    intros a Ha. injection Ha as <-. simpl.
    destruct (mathMax_spec o os) as [Hall Hin].
    repeat split; auto.
    + destruct (last (o :: os)) eqn:Hl; [reflexivity|].
      apply last_None in Hl. discriminate.
    + intros Hgood. apply Qlt_bool_iff in Hgood.
      eapply Forall_impl; [exact Hall|]. simpl. intros x Hx. lra.
    + intros Hlt. apply Qlt_bool_iff.
      rewrite Forall_forall in Hlt. apply Hlt. exact Hin.
Qed.

Lemma getAnalysis_spec_witness :
  Analysis.maxOffer
    (default (Analysis.mk 0 0 0 0 0 0 0 false [])
             (getAnalysis (snd Session.secondOffer) 75))
  ∈ offers (snd Session.secondOffer).
Proof.
  destruct (getAnalysis_spec (snd Session.secondOffer) 75) as [_ H].
  destruct (getAnalysis (snd Session.secondOffer) 75) as [a|] eqn:Ha.
  - simpl. apply (H a eq_refl).
  - exfalso. vm_compute in Ha. discriminate.
Defined.

(** X8. The aggressiveness has no part in an offer: after
    [setAggressiveness], whatever the level, [calculateOffer] returns the
    same amount and records the same history as it would have before. *)
Theorem aggressiveness_not_used (b : t) (level : Q)
    (remainingValues : list JS.value) (round : Z) (random : Q) :
  fst (calculateOffer (setAggressiveness level b) remainingValues round random)
  = fst (calculateOffer b remainingValues round random)
  /\ offers (snd (calculateOffer (setAggressiveness level b)
                    remainingValues round random))
     = offers (snd (calculateOffer b remainingValues round random)).
Proof.
  assert (Hsafe : safeOffer (setAggressiveness level b) remainingValues round random
                  = safeOffer b remainingValues round random).
  { unfold safeOffer, cappedOffer, progressedOffer, roundedOffer,
      competitiveOffer, rawOffer, getPsychologyMultiplier.
    cbn [offers setAggressiveness]. reflexivity. }
  unfold calculateOffer.
  destruct remainingValues as [|v vs]; [split; reflexivity|].
  destruct (validValues (v :: vs)); [split; reflexivity|].
  cbn [fst snd offers]. rewrite Hsafe. cbn [offers setAggressiveness].
  split; reflexivity.
Qed.

Lemma fold_squares_zero (m : Q) (xs : list Q) (a : Q) :
  Forall (fun x => x == m) xs ->
  fold_left (fun sum value => sum + (value - m) * (value - m)) xs a == a.
Proof.
  intros H. revert a. induction H as [|x xs Hx _ IH]; intros a; simpl.
  - reflexivity.
  - rewrite IH. rewrite Hx. ring.
Qed.

(** X9. No dispersion, no discount: when all the values are equal and
    positive (in particular when a single value is left), the risk
    multiplier is 1. *)
Theorem getRiskMultiplier_equal_values (v : Q) (remainingValues : list Q) :
  0 < v ->
  remainingValues <> [] ->
  Forall (fun x => x = v) remainingValues ->
  getRiskMultiplier remainingValues = 1.0.
Proof.
  intros Hv Hne Hall.
  assert (Hmean : calculateExpectedValue remainingValues == v).
  { assert (Hb : Forall (fun x => v <= x <= v) remainingValues).
    { eapply Forall_impl; [exact Hall|]. simpl. intros x ->. split; apply Qle_refl. }
    pose proof (expectedValue_bounds v v remainingValues Hne Hb).
    apply Qle_antisym; tauto. }
  unfold getRiskMultiplier.
  set (mean := calculateExpectedValue remainingValues) in *.
  set (variance := _ / _).
  assert (Hvar : variance == 0).
  { unfold variance. rewrite fold_squares_zero.
    - unfold Qdiv. ring.
    - eapply Forall_impl; [exact Hall|]. simpl. intros x ->. symmetry. exact Hmean. }
  assert (Hno : forall k, coefficientOfVariationExceeds variance mean k = false).
  { intros k. unfold coefficientOfVariationExceeds.
    destruct (JS.Qlt_bool _ _) eqn:E; [|reflexivity].
    apply Qlt_bool_iff in E. rewrite Hvar in E. nra. }
  rewrite !Hno. reflexivity.
Qed.

Lemma getRiskMultiplier_equal_values_witness :
  getRiskMultiplier [1000] = 1.0.
Proof.
  apply (getRiskMultiplier_equal_values 1000 [1000]).
  - reflexivity.
  - discriminate.
  - repeat constructor.
Defined.

(** X10. The reaction to an opened briefcase depends on its value alone:
    [isGoodElimination] is true exactly when the eliminated value is at most
    25000, whatever values remain. *)
Theorem isGoodElimination_threshold (eliminatedValue : Q) (remainingValues : list Q) :
  AudioManager.isGoodElimination eliminatedValue remainingValues
  = Qle_bool eliminatedValue 25000.
Proof.
  unfold AudioManager.isGoodElimination.
  destruct (Qle_bool eliminatedValue 1000) eqn:Hlow;
    destruct (Qle_bool 100000 eliminatedValue) eqn:Hhigh;
    destruct (Qle_bool 50000 eliminatedValue) eqn:Hmid;
    destruct (Qle_bool eliminatedValue 25000) eqn:H25;
    repeat match goal with
           | |- context [(?a <? ?b)%nat] => destruct (a <? b)%nat
           end;
    try reflexivity; exfalso;
    repeat match goal with
           | H : Qle_bool _ _ = true |- _ => apply Qle_bool_iff in H
           | H : Qle_bool ?a ?b = false |- _ =>
               assert (b < a)
                 by (apply Qnot_le_lt; intros Hc; apply Qle_bool_iff in Hc; congruence);
               clear H
           end;
    lra.
Qed.

End BankerMore.

(** * Further properties of the board *)

Section BoardMore.

Import Board.

Lemma filter_eliminated_split (bs : list briefcase) :
  filter (fun c => isEliminated c = false) bs
  ++ filter (fun c => isEliminated c = true) bs ≡ₚ bs.
Proof.
  induction bs as [|c bs IH]; [reflexivity|].
  rewrite !filter_cons.
  destruct (isEliminated c) eqn:E;
    destruct (decide (true = false)), (decide (true = true)),
             (decide (false = false)), (decide (false = true));
    try congruence; simpl.
  - rewrite <- Permutation_middle. constructor. exact IH.
  - constructor. exact IH.
Qed.

(** X11. On every board the remaining values and the eliminated values
    together are the values of the briefcases, each briefcase counted once:
    every briefcase is on exactly one of the two lists, and
    [getRemainingCasesCount] is the length of the first. *)
Theorem remaining_and_eliminated_partition (b : t) :
  getRemainingValues b ++ getEliminatedValues b ≡ₚ boardValues b
  /\ getRemainingCasesCount b = length (getRemainingValues b)
  /\ (getRemainingCasesCount b + length (getEliminatedValues b)
      = length (briefcases b))%nat.
Proof.
  unfold getRemainingValues, getEliminatedValues, getRemainingCasesCount, boardValues.
  split; [|split].
  - rewrite <- map_app. apply Permutation_map. apply filter_eliminated_split.
  - rewrite length_map. reflexivity.
  - rewrite length_map, <- length_app.
    apply Permutation_length. apply filter_eliminated_split.
Qed.

Lemma eliminateBriefcase_Some (b b' : t) (n : nat) (v : Q) :
  eliminateBriefcase b n = (Some v, b') ->
  exists i c,
    getBriefcase b n = Some (i, c)
    /\ briefcases b !! i = Some c
    /\ number c = n /\ isEliminated c = false /\ value c = v
    /\ hasElement b n = true
    /\ b' = {| briefcases := <[i := setEliminated true c]> (briefcases b);
               selectedCase := selectedCase b;
               eliminatedCases := {[n]} ∪ eliminatedCases b;
               values := values b;
               caseValues := caseValues b;
               elements := elements b |}.
Proof.
  unfold eliminateBriefcase, getBriefcase.
  destruct (list_find _ _) as [[i c]|] eqn:E; [|discriminate].
  pose proof E as E'. apply list_find_Some in E' as (Hi & Hn & _).
  destruct (hasElement b n) eqn:Hel; [|discriminate].
  destruct (isEliminated c) eqn:He; [discriminate|].
  simpl. intros H. injection H as <- <-.
  exists i, c. auto 10.
Qed.

Lemma eliminateBriefcase_None (b b' : t) (n : nat) :
  eliminateBriefcase b n = (None, b') -> b' = b.
Proof.
  unfold eliminateBriefcase.
  destruct (getBriefcase b n) as [[i c]|]; [|congruence].
  destruct (_ || _)%bool; congruence.
Qed.

Lemma filter_insert_flag (P : briefcase -> Prop) `{!forall c, Decision (P c)}
    (bs : list briefcase) (i : nat) (c c' : briefcase) :
  bs !! i = Some c ->
  filter P (<[i := c']> bs)
  = filter P (take i bs) ++ filter P [c'] ++ filter P (drop (S i) bs)
  /\ filter P bs
     = filter P (take i bs) ++ filter P [c] ++ filter P (drop (S i) bs).
Proof.
  intros Hi. split.
  - rewrite insert_take_drop by (eapply lookup_lt_Some; exact Hi).
    rewrite filter_app.
    change (c' :: drop (S i) bs) with ([c'] ++ drop (S i) bs).
    rewrite filter_app. reflexivity.
  - rewrite <- (take_drop_middle bs i c Hi) at 1.
    rewrite filter_app.
    change (c :: drop (S i) bs) with ([c] ++ drop (S i) bs).
    rewrite filter_app. reflexivity.
Qed.

Lemma eliminateBriefcase_effect (b b' : t) (n : nat) (r : option Q) :
  eliminateBriefcase b n = (r, b') ->
  match r with
  | Some v =>
      getRemainingValues b ≡ₚ v :: getRemainingValues b'
      /\ getEliminatedValues b' ≡ₚ v :: getEliminatedValues b
      /\ (getRemainingCasesCount b' + 1 = getRemainingCasesCount b)%nat
      /\ n ∈ eliminatedCases b'
      /\ selectedCase b' = selectedCase b
  | None => b' = b
  end.
Proof.
  destruct r as [v|]; [|apply eliminateBriefcase_None].
  intros H. apply eliminateBriefcase_Some in H
    as (i & c & _ & Hi & Hn & He & Hv & _ & ->).
  unfold getRemainingValues, getEliminatedValues, getRemainingCasesCount. simpl.
  destruct (filter_insert_flag (fun c => isEliminated c = false)
              (briefcases b) i c (setEliminated true c) Hi) as [Hnew Hold].
  destruct (filter_insert_flag (fun c => isEliminated c = true)
              (briefcases b) i c (setEliminated true c) Hi) as [Hnew' Hold'].
  rewrite Hnew, Hold, Hnew', Hold'. clear Hnew Hold Hnew' Hold'.
  rewrite !filter_cons, !filter_nil. simpl. rewrite He.
  destruct (decide (true = false)), (decide (true = true)),
           (decide (false = false)), (decide (false = true)); try congruence.
  subst v. simpl. repeat split.
  - rewrite !map_app. simpl. rewrite <- Permutation_middle. reflexivity.
  - rewrite !map_app. simpl. rewrite <- Permutation_middle. reflexivity.
  - rewrite !length_app. simpl. lia.
  - set_solver.
Qed.

(** X12. A successful [eliminateBriefcase] takes exactly one value off the
    remaining ones and puts it on the eliminated ones: the value it returns
    was among the remaining values, the count of remaining cases goes down
    by one, and the number joins the eliminated set.  A [null] result means
    the board is untouched. *)
Theorem eliminateBriefcase_moves_value (b b' : t) (n : nat) (r : option Q) :
  eliminateBriefcase b n = (r, b') ->
  match r with
  | Some v =>
      getRemainingValues b ≡ₚ v :: getRemainingValues b'
      /\ getEliminatedValues b' ≡ₚ v :: getEliminatedValues b
      /\ (getRemainingCasesCount b' + 1 = getRemainingCasesCount b)%nat
      /\ n ∈ eliminatedCases b'
      /\ selectedCase b' = selectedCase b
  | None => b' = b
  end.
Proof. apply eliminateBriefcase_effect. Qed.

Lemma eliminateBriefcase_moves_value_witness :
  getRemainingValues (Game.board Session.caseChosen)
  ≡ₚ 0.01 :: getRemainingValues
                (snd (eliminateBriefcase (Game.board Session.caseChosen) 1))
  /\ getEliminatedValues (snd (eliminateBriefcase (Game.board Session.caseChosen) 1))
     ≡ₚ 0.01 :: getEliminatedValues (Game.board Session.caseChosen)
  /\ (getRemainingCasesCount
        (snd (eliminateBriefcase (Game.board Session.caseChosen) 1)) + 1
      = getRemainingCasesCount (Game.board Session.caseChosen))%nat
  /\ 1%nat ∈ eliminatedCases
               (snd (eliminateBriefcase (Game.board Session.caseChosen) 1))
  /\ selectedCase (snd (eliminateBriefcase (Game.board Session.caseChosen) 1))
     = selectedCase (Game.board Session.caseChosen).
Proof.
  assert (H : fst (eliminateBriefcase (Game.board Session.caseChosen) 1) = Some 0.01)
    by (vm_compute; reflexivity).
  pose proof (eliminateBriefcase_moves_value
                (Game.board Session.caseChosen)
                (snd (eliminateBriefcase (Game.board Session.caseChosen) 1))
                1 (Some 0.01)) as Hm.
  apply Hm. rewrite <- H. apply surjective_pairing.
Defined.

(** X13. Eliminating the same number twice: whatever the first call did,
    the second returns [null] and changes nothing. *)
Theorem eliminateBriefcase_twice (b : t) (n : nat) :
  let b1 := snd (eliminateBriefcase b n) in
  eliminateBriefcase b1 n = (None, b1).
Proof.
  cbv zeta.
  destruct (eliminateBriefcase b n) as [[v|] b1] eqn:E; simpl.
  - apply eliminateBriefcase_Some in E
      as (i & c & Hfind & Hi & Hn & He & _ & Hel & ->).
    unfold eliminateBriefcase, getBriefcase. simpl.
    rewrite (find_number_insert _ n i i c (setEliminated true c) c Hi eq_refl Hfind).
    destruct (decide (i = i)); [|congruence].
    simpl. rewrite orb_true_r. reflexivity.
  - pose proof (eliminateBriefcase_None _ _ _ E). subst b1. exact E.
Qed.

Lemma selectedCount_unique (bs : list briefcase) (j : nat) (c : briefcase) :
  selectedCount bs = 1%nat ->
  bs !! j = Some c -> isSelected c = true ->
  list_find (fun c => isSelected c = true) bs = Some (j, c).
Proof.
  intros Hone Hj Hsel.
  destruct (selectedCount_find bs) as (i & c' & Hfind); [lia|].
  pose proof Hfind as Hfind'.
  apply list_find_Some in Hfind' as (Hi & Hsel' & _).
  destruct (decide (i = j)) as [->|Hne]; [congruence|].
  exfalso.
  pose proof (selectedCount_insert bs i c' (setSelected false c') Hi) as Hcount.
  rewrite Hsel' in Hcount. simpl in Hcount.
  assert (Hzero : selectedCount (<[i := setSelected false c']> bs) = 0%nat) by lia.
  assert (Hj' : <[i := setSelected false c']> bs !! j = Some c)
    by (rewrite list_lookup_insert_ne by exact Hne; exact Hj).
  rewrite (selectedCount_zero _ _ _ Hzero Hj') in Hsel. discriminate.
Qed.

Lemma selectBriefcase_read_back (b b' : t) (n : nat) :
  selectedCount (briefcases b) = 0%nat ->
  selectBriefcase b n = (true, b') ->
  exists c,
    getChosenCase b' = Some c
    /\ number c = n
    /\ getSelectedCaseValue b' = Some (value c)
    /\ isCaseSelected b' n = true
    /\ isCaseAvailable b' n = false
    /\ selectedCount (briefcases b') = 1%nat
    /\ boardValues b' = boardValues b.
Proof.
  intros Hzero Hsel.
  pose proof (selectBriefcase_values b n) as Hvals. rewrite Hsel in Hvals.
  unfold selectBriefcase in Hsel.
  destruct (getBriefcase b n) as [[i c]|] eqn:Hget; [|discriminate].
  destruct (hasElement b n); [|discriminate].
  injection Hsel as <-.
  pose proof Hget as Hget'. apply list_find_Some in Hget' as (Hi & Hn & _).
  assert (Hi' : <[i := setSelected true c]> (briefcases b) !! i
                = Some (setSelected true c))
    by (apply list_lookup_insert_eq; eapply lookup_lt_Some; exact Hi).
  assert (Hone : selectedCount (<[i := setSelected true c]> (briefcases b)) = 1%nat).
  { pose proof (selectedCount_insert _ i c (setSelected true c) Hi) as H.
    rewrite (selectedCount_zero _ _ _ Hzero Hi) in H. simpl in H. lia. }
  assert (Hfind : getBriefcase
                    {| briefcases := <[i := setSelected true c]> (briefcases b);
                       selectedCase := Some n;
                       eliminatedCases := eliminatedCases b; values := values b;
                       caseValues := caseValues b; elements := elements b |} n
                  = Some (i, setSelected true c)).
  { unfold getBriefcase. simpl.
    rewrite (find_number_insert _ n i i c (setSelected true c) c Hi eq_refl Hget).
    destruct (decide (i = i)); congruence. }
  exists (setSelected true c). repeat split.
  - unfold getChosenCase. simpl.
    rewrite (selectedCount_unique _ i (setSelected true c) Hone Hi' eq_refl).
    reflexivity.
  - exact Hn.
  - unfold getSelectedCaseValue. cbn [selectedCase]. rewrite Hfind. reflexivity.
  - unfold isCaseSelected. simpl. apply bool_decide_eq_true. reflexivity.
  - unfold isCaseAvailable. rewrite Hfind. reflexivity.
  - exact Hone.
  - exact Hvals.
Qed.

(** X14. Selecting, then reading back.  When no briefcase is selected and
    [selectBriefcase] returns [true], the board has exactly one selected
    briefcase, [getChosenCase] is the briefcase with that number,
    [getSelectedCaseValue] is its value, [isCaseSelected] answers [true] for
    the number and [isCaseAvailable] [false]; no value has changed. *)
Theorem selectBriefcase_then_read (b b' : t) (n : nat) :
  selectedCount (briefcases b) = 0%nat ->
  selectBriefcase b n = (true, b') ->
  exists c,
    getChosenCase b' = Some c
    /\ number c = n
    /\ getSelectedCaseValue b' = Some (value c)
    /\ isCaseSelected b' n = true
    /\ isCaseAvailable b' n = false
    /\ selectedCount (briefcases b') = 1%nat
    /\ boardValues b' = boardValues b.
Proof. apply selectBriefcase_read_back. Qed.

Lemma selectBriefcase_then_read_witness :
  exists c,
    getChosenCase (Game.board Session.caseChosen) = Some c
    /\ number c = 4%nat
    /\ getSelectedCaseValue (Game.board Session.caseChosen) = Some (value c)
    /\ isCaseSelected (Game.board Session.caseChosen) 4 = true
    /\ isCaseAvailable (Game.board Session.caseChosen) 4 = false
    /\ selectedCount (briefcases (Game.board Session.caseChosen)) = 1%nat
    /\ boardValues (Game.board Session.caseChosen)
       = boardValues (Game.board Session.newGame).
Proof.
  apply (selectBriefcase_then_read (Game.board Session.newGame)
           (Game.board Session.caseChosen) 4).
  - vm_compute. reflexivity.
  - vm_compute. reflexivity.
Defined.

Lemma switchPlayerCase_numbers (b : t) (n : nat) :
  map number (briefcases (switchPlayerCase b n)) = map number (briefcases b).
Proof.
  unfold switchPlayerCase. simpl.
  set (deselected := match list_find _ (briefcases b) with
                     | Some (i, c) => _ | None => _ end).
  assert (Hd : map number deselected = map number (briefcases b)).
  { unfold deselected.
    destruct (list_find _ (briefcases b)) as [[i c]|] eqn:E; [|reflexivity].
    apply list_find_Some in E as (Hi & _).
    apply (map_insert_same number _ _ c); auto. }
  destruct (list_find _ deselected) as [[j c]|] eqn:E; [|exact Hd].
  apply list_find_Some in E as (Hj & _).
  rewrite (map_insert_same number _ _ c); auto.
Qed.

(** The value found under a number depends on the numbers and the values
    only. *)
Lemma find_value_by_number (n : nat) (bs bs' : list briefcase) :
  map number bs = map number bs' ->
  map value bs = map value bs' ->
  (fun r => value (snd r)) <$> list_find (fun c => number c = n) bs
  = (fun r => value (snd r)) <$> list_find (fun c => number c = n) bs'.
Proof.
  revert bs'. induction bs as [|c bs IH]; intros [|c' bs'] Hn Hv;
    simpl in *; try discriminate; [reflexivity|].
  injection Hn as Hc Hn. injection Hv as Hcv Hv.
  rewrite Hc.
  destruct (decide (number c' = n)); simpl; [f_equal; exact Hcv|].
  specialize (IH bs' Hn Hv).
  destruct (list_find _ bs) as [[i x]|], (list_find _ bs') as [[i' x']|];
    simpl in *; congruence.
Qed.

(** The briefcases after a switch, on a board with one selected briefcase. *)
Lemma switchPlayerCase_shape (b : t) (newCaseNumber j : nat) (newCase : briefcase) :
  selectedCount (briefcases b) = 1%nat ->
  getBriefcase b newCaseNumber = Some (j, newCase) ->
  (exists i currentSelected,
      briefcases b !! i = Some currentSelected
      /\ isSelected currentSelected = true
      /\ briefcases (switchPlayerCase b newCaseNumber)
         = <[j := setSelected true newCase]>
             (<[i := setSelected false currentSelected]> (briefcases b)))
  /\ selectedCount (briefcases (switchPlayerCase b newCaseNumber)) = 1%nat.
Proof.
  intros Hone Hnew.
  destruct (selectedCount_find (briefcases b)) as (i & cur & Hcur); [lia|].
  pose proof Hcur as Hcur'.
  apply list_find_Some in Hcur' as (Hi & Hsel & _).
  set (deselected := <[i := setSelected false cur]> (briefcases b)).
  assert (Hfind : list_find (fun c => number c = newCaseNumber) deselected
                  = Some (j, if decide (i = j) then setSelected false cur else newCase))
    by (apply find_number_insert with (c0 := cur); auto).
  assert (Hbs : briefcases (switchPlayerCase b newCaseNumber)
                = <[j := setSelected true newCase]> deselected).
  { unfold switchPlayerCase. rewrite Hcur. fold deselected. rewrite Hfind.
    simpl. destruct (decide (i = j)) as [->|_]; [|reflexivity].
    apply list_find_Some in Hnew as (H & _).
    assert (cur = newCase) by congruence. subst. reflexivity. }
  assert (Hzero : selectedCount deselected = 0%nat).
  { pose proof (selectedCount_insert _ _ _ (setSelected false cur) Hi) as H.
    fold deselected in H. rewrite Hsel in H. simpl in H. lia. }
  split; [exists i, cur; auto|].
  rewrite Hbs.
  apply list_find_Some in Hfind as (Hd & _).
  pose proof (selectedCount_insert _ _ _ (setSelected true newCase) Hd) as H.
  rewrite (selectedCount_zero _ _ _ Hzero Hd) in H. simpl in H. lia.
Qed.

(** X15. [switchPlayerCase] moves the flag and not the board's record of
    the selection.  After a switch on a board with one selected briefcase,
    [getChosenCase] is the briefcase switched to, while [selectedCase],
    [isCaseSelected] and [getSelectedCaseValue] still answer for the
    briefcase selected before. *)
Theorem switchPlayerCase_stale_selection (b : t) (newCaseNumber j : nat)
    (newCase : briefcase) :
  selectedCount (briefcases b) = 1%nat ->
  getBriefcase b newCaseNumber = Some (j, newCase) ->
  let b' := switchPlayerCase b newCaseNumber in
  getChosenCase b' = Some (setSelected true newCase)
  /\ selectedCase b' = selectedCase b
  /\ getSelectedCaseValue b' = getSelectedCaseValue b
  /\ (forall m, isCaseSelected b' m = isCaseSelected b m).
Proof.
  intros Hone Hnew b'.
  destruct (switchPlayerCase_shape b newCaseNumber j newCase Hone Hnew)
    as ((i & cur & Hi & Hsel & Hbs) & Hone').
  fold b' in Hbs, Hone'.
  split; [|split; [reflexivity|split; [|reflexivity]]].
  - unfold getChosenCase.
    rewrite (selectedCount_unique _ j (setSelected true newCase) Hone'); [reflexivity| |reflexivity].
    rewrite Hbs. apply list_lookup_insert_eq.
    rewrite length_insert. apply list_find_Some in Hnew as (H & _).
    eapply lookup_lt_Some; exact H.
  - unfold getSelectedCaseValue. change (selectedCase b') with (selectedCase b).
    destruct (selectedCase b) as [m|]; [|reflexivity].
    pose proof (find_value_by_number m (briefcases b') (briefcases b)
                  (switchPlayerCase_numbers b newCaseNumber)
                  (switchPlayerCase_values b newCaseNumber)) as H.
    unfold getBriefcase.
    destruct (list_find _ (briefcases b')) as [[k x]|],
             (list_find _ (briefcases b)) as [[k' x']|];
      simpl in H; congruence.
Qed.

Lemma switchPlayerCase_stale_selection_witness :
  getChosenCase (switchPlayerCase (Game.board Session.switchOffered) 26)
  = Some (setSelected true (mkCase 26 false false 1000))
  /\ getSelectedCaseValue (switchPlayerCase (Game.board Session.switchOffered) 26)
     = getSelectedCaseValue (Game.board Session.switchOffered).
Proof.
  assert (Hone : selectedCount (briefcases (Game.board Session.switchOffered)) = 1%nat)
    by (vm_compute; reflexivity).
  assert (Hnew : getBriefcase (Game.board Session.switchOffered) 26
                 = Some (25%nat, mkCase 26 false false 1000))
    by (vm_compute; reflexivity).
  pose proof (switchPlayerCase_stale_selection _ _ _ _ Hone Hnew) as H.
  cbv zeta in H. destruct H as (Hchosen & _ & Hvalue & _).
  split; [exact Hchosen|exact Hvalue].
Defined.

(** X16. The two ways of asking which briefcases can be opened agree: on a
    board whose briefcase numbers are all different, [isCaseAvailable]
    answers [true] for a number exactly when [getAvailableCases] lists it. *)
Theorem isCaseAvailable_iff_listed (b : t) (n : nat) :
  NoDup (map number (briefcases b)) ->
  isCaseAvailable b n = true <-> n ∈ getAvailableCases b.
Proof.
  intros Hnodup. unfold isCaseAvailable, getAvailableCases, getBriefcase. split.
  - destruct (list_find _ _) as [[i c]|] eqn:E; [|discriminate].
    apply list_find_Some in E as (Hi & Hn & _).
    intros Hflags. apply andb_true_iff in Hflags as [Hs He].
    apply negb_true_iff in Hs, He.
    apply (list_elem_of_fmap number). exists c. split; [auto|].
    apply list_elem_of_filter. split; [auto|].
    apply list_elem_of_lookup. eauto.
  - intros Hin. apply (list_elem_of_fmap number) in Hin as (c & Hn & Hin).
    apply list_elem_of_filter in Hin as [[Hs He] Hin].
    apply list_elem_of_lookup in Hin as [i Hi].
    destruct (list_find _ _) as [[i' c']|] eqn:E.
    + apply list_find_Some in E as (Hi' & Hn' & _).
      assert (i = i').
      { eapply (NoDup_lookup _ i i' n Hnodup).
        - rewrite list_lookup_fmap, Hi. simpl. congruence.
        - rewrite list_lookup_fmap, Hi'. simpl. congruence. }
      subst i'. assert (c' = c) by congruence. subst c'.
      rewrite Hs, He. reflexivity.
    + apply list_find_None in E. rewrite Forall_forall in E.
      exfalso. apply (E c); [apply list_elem_of_lookup; eauto|auto].
Qed.

Lemma isCaseAvailable_iff_listed_witness :
  isCaseAvailable (Game.board Session.oneOpened) 26 = true
  <-> 26%nat ∈ getAvailableCases (Game.board Session.oneOpened).
Proof.
  apply (isCaseAvailable_iff_listed (Game.board Session.oneOpened) 26).
  apply (bool_decide_unpack _). vm_compute. exact I.
Defined.

(** X17. [getRandomAvailableCase], on a draw in [0, 1): it is [null]
    exactly when no case is available, and a number it returns is one of
    the available ones. *)
Theorem getRandomAvailableCase_available (random : Q) (b : t) :
  0 <= random < 1 ->
  (getRandomAvailableCase random b = None <-> getAvailableCases b = [])
  /\ (forall n, getRandomAvailableCase random b = Some n ->
                n ∈ getAvailableCases b).
Proof.
  intros Hr. unfold getRandomAvailableCase.
  destruct (getAvailableCases b) as [|a available] eqn:Ha; simpl.
  - split; [tauto|discriminate].
  - pose proof (randomIndex_range random (length available) Hr) as Hidx.
    unfold randomIndex in Hidx. unfold JS.len. simpl length.
    replace (S (length available)) with (length available + 1)%nat by lia.
    set (k := Z.to_nat _) in *.
    destruct (lookup_lt_is_Some_2 (a :: available) k ltac:(simpl; lia)) as [n Hn].
    split.
    + split; [rewrite Hn; discriminate|discriminate].
    + intros m Hm. apply list_elem_of_lookup. exists k. exact Hm.
Qed.

Lemma getRandomAvailableCase_available_witness :
  (getRandomAvailableCase 0.5 (Game.board Session.oneOpened) = None
   <-> getAvailableCases (Game.board Session.oneOpened) = [])
  /\ (forall n, getRandomAvailableCase 0.5 (Game.board Session.oneOpened) = Some n ->
                n ∈ getAvailableCases (Game.board Session.oneOpened)).
Proof.
  apply (getRandomAvailableCase_available 0.5 (Game.board Session.oneOpened)).
  split; discriminate || reflexivity.
Defined.



Lemma assigned_numbers (shuffledValues : list Q) (bs : list briefcase) :
  map number (imap (assignValue shuffledValues) bs) = map number bs.
Proof.
  apply list_eq. intros k.
  rewrite !list_lookup_fmap, list_lookup_imap.
  destruct (bs !! k) as [c|]; [|reflexivity]. simpl.
  unfold assignValue. destruct (shuffledValues !! k); reflexivity.
Qed.

Lemma assigned_flags (shuffledValues : list Q) (bs : list briefcase) :
  Forall (fun c => isSelected c = false /\ isEliminated c = false) bs ->
  Forall (fun c => isSelected c = false /\ isEliminated c = false)
         (imap (assignValue shuffledValues) bs).
Proof.
  intros Hall. apply Forall_lookup. intros k c Hk.
  rewrite list_lookup_imap in Hk.
  destruct (bs !! k) as [c0|] eqn:Hc0; [|discriminate].
  injection Hk as <-.
  pose proof (proj1 (Forall_lookup _ _) Hall k c0 Hc0) as Hflags.
  unfold assignValue. destruct (shuffledValues !! k); exact Hflags.
Qed.

Lemma fold_insert_other (bs : list briefcase) (m : gmap nat Q) (k : nat) :
  k ∉ map number bs ->
  fold_left (fun m c => <[number c := value c]> m) bs m !! k = m !! k.
Proof.
  revert m. induction bs as [|c bs IH]; intros m Hk; simpl; [reflexivity|].
  simpl in Hk. apply not_elem_of_cons in Hk as [Hne Hk].
  rewrite IH by exact Hk. apply lookup_insert_ne. congruence.
Qed.

Lemma fold_insert_lookup (bs : list briefcase) (m : gmap nat Q) (c : briefcase) :
  NoDup (map number bs) -> c ∈ bs ->
  fold_left (fun m c => <[number c := value c]> m) bs m !! number c
  = Some (value c).
Proof.
  revert m. induction bs as [|x bs IH]; intros m Hnd Hin; simpl.
  - apply elem_of_nil in Hin. contradiction.
  - simpl in Hnd. apply NoDup_cons in Hnd as [Hx Hnd].
    apply elem_of_cons in Hin as [->|Hin].
    + rewrite fold_insert_other by exact Hx. apply lookup_insert_eq.
    + apply IH; assumption.
Qed.

Lemma blank_cases_numbers :
  map number
      (map (fun i => {| number := i; isSelected := false;
                        isEliminated := false; value := 0 |}) (seq 1 26))
  = seq 1 26.
Proof. vm_compute. reflexivity. Qed.

Lemma blank_cases_flags :
  Forall (fun c => isSelected c = false /\ isEliminated c = false)
         (map (fun i => {| number := i; isSelected := false;
                           isEliminated := false; value := 0 |}) (seq 1 26)).
Proof. apply Forall_map. apply Forall_forall. intros; simpl; auto. Qed.

(** What the shuffle makes of a board just set up by [setupBriefcases],
    once rendered. *)
Lemma shuffled_fresh (random : nat -> Q) (b : t) :
  length (values b) = 26%nat ->
  selectedCase b = None -> eliminatedCases b = ∅ -> caseValues b = ∅ ->
  exists b',
    shuffleValues random (setupBriefcases b) = Return b'
    /\ fresh (renderBoard b') /\ values b' = values b.
Proof.
  intros Hlen Hsel Hel Hcv. unfold shuffleValues.
  change (length (briefcases (setupBriefcases b))) with 26%nat.
  change (values (setupBriefcases b)) with (values b).
  rewrite Hlen. simpl negb. cbv iota.
  eexists. split; [reflexivity|]. split; [|reflexivity].
  unfold fresh, renderBoard. cbn [briefcases selectedCase eliminatedCases elements
                                   caseValues setupBriefcases withBriefcases].
  rewrite assigned_numbers, blank_cases_numbers.
  repeat split; auto.
  - apply assigned_flags. apply blank_cases_flags.
  - intros c Hc. apply fold_insert_lookup; [|exact Hc].
    rewrite assigned_numbers, blank_cases_numbers. apply NoDup_seq.
Qed.

Lemma reset_fresh_ok (random : nat -> Q) (b : t) :
  length (values b) = 26%nat ->
  exists b', reset random b = Return b' /\ fresh b' /\ values b' = values b.
Proof.
  intros Hlen. unfold reset.
  match goal with
  | |- context [shuffleValues random (setupBriefcases ?x)] =>
      destruct (shuffled_fresh random x Hlen eq_refl eq_refl eq_refl)
        as (b' & Hb' & Hfresh & Hvals)
  end.
  exists (renderBoard b'). rewrite Hb'. auto.
Qed.

Lemma create_fresh_ok (random : nat -> Q) :
  exists b, create random = Return b /\ fresh b /\ values b = denominations.
Proof.
  unfold create.
  match goal with
  | |- context [shuffleValues random (setupBriefcases ?x)] =>
      destruct (shuffled_fresh random x eq_refl eq_refl eq_refl eq_refl)
        as (b' & Hb' & Hfresh & Hvals)
  end.
  exists (renderBoard b'). rewrite Hb'. auto.
Qed.

(** X19. [new Board()] always succeeds and [reset] succeeds exactly when
    the table of values has 26 entries (it throws the count-mismatch error
    otherwise).  What they return is a fresh board: briefcases 1 to 26 in
    order, none selected or eliminated, no selection, an empty eliminated
    set, an element per number, and a case-value map that holds each
    briefcase's value under its number. *)
Theorem reset_gives_fresh_board (random : nat -> Q) (b : t) :
  (exists b0, create random = Return b0 /\ fresh b0)
  /\ (length (values b) = 26%nat ->
      exists b', reset random b = Return b' /\ fresh b' /\ values b' = values b)
  /\ (length (values b) <> 26%nat ->
      reset random b = Throw "Values and briefcases count mismatch").
Proof.
  split; [|split].
  - destruct (create_fresh_ok random) as (b0 & H & Hf & _). eauto.
  - apply reset_fresh_ok.
  - intros Hlen. unfold reset, shuffleValues.
    change (length (briefcases (setupBriefcases _))) with 26%nat.
    cbn [values setupBriefcases withBriefcases].
    destruct (Nat.eqb_spec (length (values b)) 26); [contradiction|reflexivity].
Qed.

Lemma reset_gives_fresh_board_witness :
  exists b', reset Session.draws (Game.board Session.switchOffered) = Return b'
             /\ fresh b'
             /\ values b' = values (Game.board Session.switchOffered).
Proof.
  destruct (reset_gives_fresh_board Session.draws (Game.board Session.switchOffered))
    as (_ & H & _).
  apply H. vm_compute. reflexivity.
Defined.

End BoardMore.

(** * Further properties of the round controller *)

Section GameMore.

Import Board.

Lemma fresh_tracked (b : t) : fresh b -> tracked b.
Proof.
  intros (Hnum & Hflags & _ & Hel & Helem & Hcv).
  repeat split; auto.
  - intros He. rewrite Forall_forall in Hflags.
    destruct (Hflags c H) as [_ Hf]. congruence.
  - rewrite Hel. intros Hin. apply not_elem_of_empty in Hin. contradiction.
Qed.

(** Writing flags into one briefcase keeps the books, provided the
    eliminated set is updated along with the eliminated flag. *)
Lemma tracked_update (b b' : t) (i : nat) (c c' : briefcase) :
  tracked b ->
  briefcases b !! i = Some c ->
  briefcases b' = <[i := c']> (briefcases b) ->
  elements b' = elements b ->
  caseValues b' = caseValues b ->
  number c' = number c ->
  value c' = value c ->
  (isEliminated c' = true <-> number c ∈ eliminatedCases b') ->
  (forall m, m <> number c -> (m ∈ eliminatedCases b' <-> m ∈ eliminatedCases b)) ->
  tracked b'.
Proof.
  intros (Hnum & Helem & Hcv & Hel) Hi Hbs Helem' Hcv' Hn Hv Hflag Hothers.
  assert (Hnd : NoDup (map number (briefcases b))) by (rewrite Hnum; apply NoDup_seq).
  assert (Hcases : forall x, x ∈ briefcases b' ->
                     x = c' \/ (x ∈ briefcases b /\ number x <> number c)).
  { intros x Hx. rewrite Hbs in Hx. apply list_elem_of_lookup in Hx as [k Hk].
    apply list_lookup_insert_Some in Hk as [(-> & <- & _)|(Hne & Hk)]; [auto|].
    right. split; [apply list_elem_of_lookup; eauto|].
    intros Heq. apply Hne.
    apply (NoDup_lookup _ i k (number c) Hnd).
    - rewrite list_lookup_fmap, Hi. reflexivity.
    - rewrite list_lookup_fmap, Hk. simpl. congruence. }
  assert (Hc : c ∈ briefcases b) by (apply list_elem_of_lookup; eauto).
  unfold tracked. rewrite Hbs, Helem', Hcv'. repeat split; auto.
  - rewrite (map_insert_same number _ _ c); auto.
  - intros x Hx. rewrite <- Hbs in Hx.
    destruct (Hcases x Hx) as [->|[Hin _]]; [|auto].
    rewrite Hn, Hv. auto.
  - rewrite <- Hbs in H.
    destruct (Hcases c0 H) as [->|[Hin Hne]].
    + rewrite Hn. apply Hflag.
    + intros He. apply Hothers; [exact Hne|]. apply Hel; assumption.
  - rewrite <- Hbs in H.
    destruct (Hcases c0 H) as [->|[Hin Hne]].
    + rewrite Hn. apply Hflag.
    + intros He. apply Hel; [exact Hin|]. apply Hothers; assumption.
Qed.

Lemma selectBriefcase_tracked (b : t) (n : nat) :
  tracked b -> tracked (snd (selectBriefcase b n)).
Proof.
  intros Hb. unfold selectBriefcase, getBriefcase.
  destruct (list_find _ _) as [[i c]|] eqn:E; [|exact Hb].
  destruct (hasElement b n); [|exact Hb].
  apply list_find_Some in E as (Hi & _). simpl.
  apply (tracked_update b _ i c (setSelected true c)); auto; simpl; try tauto.
  destruct Hb as (_ & _ & _ & Hel). apply Hel. apply list_elem_of_lookup; eauto.
Qed.

Lemma eliminateBriefcase_tracked (b : t) (n : nat) :
  tracked b -> tracked (snd (eliminateBriefcase b n)).
Proof.
  intros Hb. unfold eliminateBriefcase, getBriefcase.
  destruct (list_find _ _) as [[i c]|] eqn:E; [|exact Hb].
  destruct (_ || _)%bool; [exact Hb|].
  apply list_find_Some in E as (Hi & Hn & _). simpl.
  apply (tracked_update b _ i c (setEliminated true c)); auto; simpl.
  all: try (rewrite Hn; split; [intros _; apply elem_of_union_l, elem_of_singleton; reflexivity|reflexivity]).
  all: try (intros m Hm; rewrite Hn in Hm; rewrite elem_of_union, elem_of_singleton; tauto).
Qed.

Lemma switchPlayerCase_tracked (b : t) (n : nat) :
  tracked b -> tracked (switchPlayerCase b n).
Proof.
  intros Hb. unfold switchPlayerCase.
  set (deselected := match list_find _ (briefcases b) with
                     | Some (i, c) => _ | None => _ end).
  assert (Hd : tracked (withBriefcases deselected b)).
  { unfold deselected.
    destruct (list_find _ (briefcases b)) as [[i c]|] eqn:E.
    - apply list_find_Some in E as (Hi & _).
      apply (tracked_update b _ i c (setSelected false c)); auto; simpl; try tauto.
      destruct Hb as (_ & _ & _ & Hel). apply Hel. apply list_elem_of_lookup; eauto.
    - destruct b; exact Hb. }
  destruct (list_find _ deselected) as [[j c]|] eqn:E; [|exact Hd].
  apply list_find_Some in E as (Hj & _).
  apply (tracked_update (withBriefcases deselected b) _ j c (setSelected true c));
    auto; simpl; try tauto.
  destruct Hd as (_ & _ & _ & Hel). apply (Hel c). apply list_elem_of_lookup; eauto.
Qed.

Lemma step_tracked (g : Game.t) (e : Game.event) :
  tracked (Game.board g) -> tracked (Game.board (Game.step g e)).
Proof.
  intros Hb. destruct e as [n|random| | |choice rc]; simpl.
  - unfold Game.click. destruct (handleBriefcaseClick _ _); [|exact Hb].
    unfold Game.handleBriefcaseClick.
    destruct (Game.gameState g); try exact Hb.
    + apply selectBriefcase_tracked. exact Hb.
    + unfold Game.eliminateCase.
      destruct (negb _); [exact Hb|].
      pose proof (eliminateBriefcase_tracked (Game.board g) n0 Hb) as H.
      destruct (eliminateBriefcase (Game.board g) n0) as [[v|] bd]; [exact H|exact Hb].
  - unfold Game.handleContinueGame.
    destruct (Game.currentEliminatedCase g); [|exact Hb]. simpl.
    destruct (_ <=? _)%nat; [|exact Hb].
    rewrite endRound_board. exact Hb.
  - exact Hb.
  - exact Hb.
  - unfold Game.handleSwitchDecision. destruct choice; [|exact Hb].
    apply switchPlayerCase_tracked. exact Hb.
Qed.

Lemma run_tracked (events : list Game.event) (g : Game.t) :
  tracked (Game.board g) -> tracked (Game.board (Game.run g events)).
Proof.
  unfold Game.run. revert g.
  induction events as [|e events IH]; intros g Hb; simpl; [exact Hb|].
  apply IH. apply step_tracked. exact Hb.
Qed.

(** A game as its constructor leaves it. *)
Lemma create_game (random0 random : nat -> Q) :
  exists b,
    fresh b /\ values b = denominations
    /\ Game.create random0 random
       = Return {| Game.board := b; Game.banker := Banker.reset;
                   Game.gameState := Game.selecting; Game.round := 1;
                   Game.casesToEliminate := 6; Game.eliminatedThisRound := 0;
                   Game.currentEliminatedCase := None |}.
Proof.
  unfold Game.create.
  destruct (create_fresh_ok random0) as (b0 & Hb0 & _ & Hv0).
  rewrite Hb0. unfold Game.startNewGame. simpl.
  destruct (reset_fresh_ok random b0) as (b1 & Hb1 & Hfresh & Hv1);
    [rewrite Hv0; reflexivity|].
  rewrite Hb1. exists b1. split; [exact Hfresh|]. split; [congruence|reflexivity].
Qed.

(** X20. The books of the board stay right through a whole game.  A game
    is constructed without error, and after any sequence of clicks, timers,
    answers to offers and switch decisions: the briefcases are numbered 1 to
    26 in order, there is an element for each, the case-value map holds each
    briefcase's value under its number, and the eliminated set holds exactly
    the numbers of the briefcases flagged eliminated. *)
Theorem session_books_agree (random0 random : nat -> Q) (events : list Game.event) :
  exists g0,
    Game.create random0 random = Return g0
    /\ let b := Game.board (Game.run g0 events) in
       map number (briefcases b) = seq 1 26
       /\ elements b = seq 1 26
       /\ (forall c, c ∈ briefcases b -> caseValues b !! number c = Some (value c))
       /\ (forall c, c ∈ briefcases b ->
             (isEliminated c = true <-> number c ∈ eliminatedCases b)).
Proof.
  destruct (create_game random0 random) as (b & Hfresh & _ & Hcreate).
  eexists. split; [exact Hcreate|].
  apply (run_tracked events). apply fresh_tracked. exact Hfresh.
Qed.

Lemma selectBriefcase_map {B : Type} (f : briefcase -> B) (b : t) (n : nat) :
  (forall s c, f (setSelected s c) = f c) ->
  map f (briefcases (snd (selectBriefcase b n))) = map f (briefcases b).
Proof.
  intros Hf. unfold selectBriefcase, getBriefcase.
  destruct (list_find _ _) as [[i c]|] eqn:E; [|reflexivity].
  destruct (hasElement b n); [|reflexivity].
  apply list_find_Some in E as (Hi & _).
  apply (map_insert_same f _ _ c); auto.
Qed.

Lemma switchPlayerCase_map {B : Type} (f : briefcase -> B) (b : t) (n : nat) :
  (forall s c, f (setSelected s c) = f c) ->
  map f (briefcases (switchPlayerCase b n)) = map f (briefcases b).
Proof.
  intros Hf. unfold switchPlayerCase. simpl.
  set (deselected := match list_find _ (briefcases b) with
                     | Some (i, c) => _ | None => _ end).
  assert (Hd : map f deselected = map f (briefcases b)).
  { unfold deselected.
    destruct (list_find _ (briefcases b)) as [[i c]|] eqn:E; [|reflexivity].
    apply list_find_Some in E as (Hi & _).
    apply (map_insert_same f _ _ c); auto. }
  destruct (list_find _ deselected) as [[j c]|] eqn:E; [|exact Hd].
  apply list_find_Some in E as (Hj & _).
  rewrite (map_insert_same f _ _ c); auto.
Qed.

Lemma count_by_flags (bs bs' : list briefcase) :
  map isEliminated bs = map isEliminated bs' ->
  length (filter (fun c => isEliminated c = false) bs)
  = length (filter (fun c => isEliminated c = false) bs').
Proof.
  revert bs'. induction bs as [|c bs IH]; intros [|c' bs'] H;
    simpl in H; try discriminate; [reflexivity|].
  injection H as Hc H. rewrite !filter_cons, Hc.
  destruct (decide (isEliminated c' = false)); simpl; rewrite (IH bs' H); reflexivity.
Qed.

Lemma advances_refl (g : Game.t) : Game.advances g g.
Proof. repeat split; [lia|reflexivity|reflexivity|lia]. Qed.

Lemma advances_trans (g1 g2 g3 : Game.t) :
  Game.advances g1 g2 -> Game.advances g2 g3 -> Game.advances g1 g3.
Proof.
  intros (H1 & H2 & H3 & H4) (K1 & K2 & K3 & K4).
  repeat split; [lia|etrans; eassumption|etrans; eassumption|lia].
Qed.

Lemma advances_same_board (g g' : Game.t) :
  Game.board g' = Game.board g ->
  Banker.offers (Game.banker g) `prefix_of` Banker.offers (Game.banker g') ->
  (Game.round g <= Game.round g')%Z ->
  Game.advances g g'.
Proof. intros Hb Ho Hr. unfold Game.advances. rewrite Hb. auto. Qed.

Lemma calculateOffer_prefix (b : Banker.t) (remainingValues : list JS.value)
    (round : Z) (random : Q) :
  Banker.offers b
  `prefix_of` Banker.offers (snd (Banker.calculateOffer b remainingValues round random)).
Proof.
  destruct (Banker.validValues remainingValues) as [|v vs] eqn:Hv.
  - unfold Banker.calculateOffer. rewrite Hv.
    destruct remainingValues; reflexivity.
  - rewrite calculateOffer_valid by (rewrite Hv; discriminate). simpl.
    apply prefix_app_r. reflexivity.
Qed.

Lemma endRound_advances (random : Q) (g : Game.t) :
  Game.advances g (Game.endRound random g).
Proof.
  apply advances_same_board.
  - apply endRound_board.
  - unfold Game.endRound. simpl.
    destruct (_ <=? 2)%nat.
    + unfold Game.offerSwitchOption. destruct (negb _); reflexivity.
    + apply calculateOffer_prefix.
  - unfold Game.endRound. simpl.
    destruct (_ <=? 2)%nat; [|simpl; lia].
    unfold Game.offerSwitchOption. destruct (negb _); simpl; lia.
Qed.

Lemma step_advances (g : Game.t) (e : Game.event) : Game.advances g (Game.step g e).
Proof.
  destruct e as [n|random| | |choice rc]; simpl.
  - unfold Game.click. destruct (handleBriefcaseClick _ _); [|apply advances_refl].
    unfold Game.handleBriefcaseClick.
    destruct (Game.gameState g); try apply advances_refl.
    + unfold Game.advances, Game.selectPlayerCase. simpl.
      repeat split; try reflexivity; try lia.
      * unfold getRemainingCasesCount.
        rewrite (count_by_flags _ (briefcases (Game.board g))); [lia|].
        apply selectBriefcase_map. reflexivity.
      * unfold selectBriefcase. destruct (getBriefcase _ _) as [[i c]|]; [|reflexivity].
        destruct (hasElement _ _); reflexivity.
    + unfold Game.eliminateCase.
      destruct (negb _); [apply advances_refl|].
      destruct (eliminateBriefcase (Game.board g) n0) as [[v|] bd] eqn:E;
        [|apply advances_refl].
      pose proof (eliminateBriefcase_effect _ _ _ _ E) as (_ & _ & Hcount & _ & _).
      apply eliminateBriefcase_Some in E as (i & c & _ & _ & _ & _ & _ & _ & ->).
      unfold Game.advances. simpl in *. repeat split; try reflexivity; try lia.
      apply union_subseteq_r.
  - unfold Game.handleContinueGame.
    destruct (Game.currentEliminatedCase g); [|apply advances_refl]. simpl.
    set (g1 := Game.withEliminatedThisRound (S (Game.eliminatedThisRound g)) g).
    assert (H1 : Game.advances g g1)
      by (apply advances_same_board; simpl; [reflexivity|reflexivity|lia]).
    destruct (_ <=? _)%nat.
    + apply (advances_trans g g1 _ H1).
      apply (advances_trans g1 (Game.endRound random g1) _ (endRound_advances random g1)).
      apply advances_same_board; simpl; [reflexivity|reflexivity|lia].
    + apply (advances_trans g g1 _ H1).
      apply advances_same_board; simpl; [reflexivity|reflexivity|lia].
  - apply advances_same_board; simpl; [reflexivity|reflexivity|lia].
  - apply advances_same_board; simpl; [reflexivity|reflexivity|lia].
  - unfold Game.handleSwitchDecision. destruct choice; [|apply advances_refl].
    unfold Game.advances. simpl. repeat split; try reflexivity; try lia.
    unfold getRemainingCasesCount.
    rewrite (count_by_flags _ (briefcases (Game.board g))); [lia|].
    apply switchPlayerCase_map. reflexivity.
Qed.

(** X21. A game only moves forward.  From any game and through any
    sequence of events, the count of remaining cases never goes up, no
    number ever leaves the eliminated set, the offer history only grows at
    its end (what was offered stays as offered), and the round number never
    goes down. *)
Theorem game_only_advances (g : Game.t) (events : list Game.event) :
  let g' := Game.run g events in
  (getRemainingCasesCount (Game.board g') <= getRemainingCasesCount (Game.board g))%nat
  /\ eliminatedCases (Game.board g) ⊆ eliminatedCases (Game.board g')
  /\ Banker.offers (Game.banker g) `prefix_of` Banker.offers (Game.banker g')
  /\ (Game.round g <= Game.round g')%Z.
Proof.
  cbv zeta. change (Game.advances g (Game.run g events)).
  unfold Game.run. revert g.
  induction events as [|e events IH]; intros g; simpl; [apply advances_refl|].
  eapply advances_trans; [apply step_advances|apply IH].
Qed.

Lemma denominations_positive : Forall (fun v => 0 < v) denominations.
Proof. unfold denominations. repeat (constructor; [reflexivity|]). constructor. Qed.

(** A game as its constructor leaves it, on draws in [0, 1). *)
Lemma create_game_values (random0 random : nat -> Q) :
  (forall i, 0 <= random0 i < 1) ->
  (forall i, 0 <= random i < 1) ->
  exists b,
    fresh b /\ boardValues b ≡ₚ denominations
    /\ Game.create random0 random
       = Return {| Game.board := b; Game.banker := Banker.reset;
                   Game.gameState := Game.selecting; Game.round := 1;
                   Game.casesToEliminate := 6; Game.eliminatedThisRound := 0;
                   Game.currentEliminatedCase := None |}.
Proof.
  intros Hr0 Hr.
  destruct (create_game random0 random) as (b & Hfresh & Hvals & Hcreate).
  exists b. split; [exact Hfresh|]. split; [|exact Hcreate].
  unfold Game.create in Hcreate.
  destruct (create_perm random0 Hr0) as (b0 & Hb0 & _ & Hv0).
  rewrite Hb0 in Hcreate. unfold Game.startNewGame in Hcreate. simpl in Hcreate.
  destruct (reset_perm random b0 Hr) as (b1 & Hb1 & Hperm & _);
    [rewrite Hv0; reflexivity|].
  rewrite Hb1 in Hcreate. injection Hcreate as <-.
  rewrite Hperm, Hv0. reflexivity.
Qed.

Lemma remaining_positive (b : t) :
  boardValues b ≡ₚ denominations ->
  Forall (fun v => 0 < v) (getRemainingValues b).
Proof.
  intros Hperm.
  assert (Hall : Forall (fun v => 0 < v) (boardValues b))
    by (rewrite Hperm; apply denominations_positive).
  unfold boardValues in Hall. unfold getRemainingValues.
  rewrite Forall_forall in Hall. apply Forall_forall. intros v Hv.
  apply (list_elem_of_fmap value) in Hv as (c & -> & Hc).
  apply list_elem_of_filter in Hc as [_ Hc].
  apply Hall. apply (list_elem_of_fmap value). eauto.
Qed.

(** X22. The money board always adds up.  At any point of a game (on
    shuffles drawn in [0, 1)), the values still in play together with the
    values eliminated are the 26 denominations, each once; the two counts add
    up to 26; and every value still in play is positive. *)
Theorem session_accounts_for_every_value (random0 random : nat -> Q)
    (events : list Game.event) :
  (forall i, 0 <= random0 i < 1) ->
  (forall i, 0 <= random i < 1) ->
  exists g0,
    Game.create random0 random = Return g0
    /\ let b := Game.board (Game.run g0 events) in
       getRemainingValues b ++ getEliminatedValues b ≡ₚ denominations
       /\ (getRemainingCasesCount b + length (getEliminatedValues b) = 26)%nat
       /\ Forall (fun v => 0 < v) (getRemainingValues b).
Proof.
  intros Hr0 Hr.
  destruct (create_game_values random0 random Hr0 Hr) as (b0 & _ & Hperm & Hcreate).
  eexists. split; [exact Hcreate|]. cbv zeta.
  set (b := Game.board (Game.run _ events)).
  assert (Hvals : boardValues b ≡ₚ denominations)
    by (unfold b; rewrite run_values; exact Hperm).
  assert (Hsplit : getRemainingValues b ++ getEliminatedValues b ≡ₚ boardValues b).
  { unfold getRemainingValues, getEliminatedValues, boardValues.
    rewrite <- map_app. apply Permutation_map. apply filter_eliminated_split. }
  split; [rewrite Hsplit; exact Hvals|]. split.
  - rewrite Hvals in Hsplit. apply Permutation_length in Hsplit.
    rewrite length_app in Hsplit. unfold getRemainingCasesCount.
    unfold getRemainingValues in Hsplit. rewrite length_map in Hsplit.
    exact Hsplit.
  - apply remaining_positive. exact Hvals.
Qed.

Lemma session_accounts_for_every_value_witness :
  exists g0,
    Game.create Session.draws Session.draws = Return g0
    /\ let b := Game.board (Game.run g0 [Game.Click 4%nat; Game.Click 1%nat]) in
       getRemainingValues b ++ getEliminatedValues b ≡ₚ denominations
       /\ (getRemainingCasesCount b + length (getEliminatedValues b) = 26)%nat
       /\ Forall (fun v => 0 < v) (getRemainingValues b).
Proof.
  apply (session_accounts_for_every_value Session.draws Session.draws
           [Game.Click 4%nat; Game.Click 1%nat]);
    intros i; unfold Session.draws; split; discriminate || reflexivity.
Defined.

(** X23. When a round ends during a game (on shuffles drawn in [0, 1)):
    with more than two cases left, exactly one offer is appended to the
    history, it is the banker's current offer, and the game waits for the
    answer; with two cases or fewer no offer is made, the banker is left as
    it was, and the game either is over or shows the switch dialog. *)
Theorem session_round_end (random0 random : nat -> Q) (events : list Game.event)
    (jitter : Q) :
  (forall i, 0 <= random0 i < 1) ->
  (forall i, 0 <= random i < 1) ->
  exists g0,
    Game.create random0 random = Return g0
    /\ let g := Game.run g0 events in
       let g' := Game.endRound jitter g in
       ((2 < getRemainingCasesCount (Game.board g))%nat ->
        exists offer,
          Banker.offers (Game.banker g') = Banker.offers (Game.banker g) ++ [offer]
          /\ Banker.getCurrentOffer (Game.banker g') = offer
          /\ Game.gameState g' = Game.banker_offer
          /\ Game.eliminatedThisRound g' = 0%nat)
       /\ ((getRemainingCasesCount (Game.board g) <= 2)%nat ->
           Game.banker g' = Game.banker g
           /\ (Game.gameState g' = Game.game_over
               \/ Game.gameState g' = Game.gameState g)).
Proof.
  intros Hr0 Hr.
  destruct (create_game_values random0 random Hr0 Hr) as (b0 & _ & Hperm & Hcreate).
  eexists. split; [exact Hcreate|]. cbv zeta.
  set (g := Game.run _ events).
  assert (Hvals : boardValues (Game.board g) ≡ₚ denominations)
    by (unfold g; rewrite run_values; exact Hperm).
  split.
  - intros Hcount.
    assert (Hvalid : Banker.validValues (Game.remainingValuesForOffer g) <> []).
    { unfold Game.remainingValuesForOffer.
      rewrite validValues_Num by (apply remaining_positive; exact Hvals).
      unfold getRemainingCasesCount in Hcount. unfold getRemainingValues.
      destruct (filter _ _); simpl in *; [lia|discriminate]. }
    unfold Game.endRound. simpl.
    destruct (Nat.leb_spec (getRemainingCasesCount (Game.board g)) 2); [lia|].
    simpl. unfold Banker.makeOffer.
    rewrite (calculateOffer_valid _ _ _ _ Hvalid). simpl.
    eexists. repeat split; reflexivity.
  - intros Hcount. unfold Game.endRound. simpl.
    destruct (Nat.leb_spec (getRemainingCasesCount (Game.board g)) 2); [|lia].
    unfold Game.offerSwitchOption. destruct (negb _); simpl; auto.
Qed.

Lemma session_round_end_witness :
  exists g0,
    Game.create Session.draws Session.draws = Return g0
    /\ let g := Game.run g0 [Game.Click 4%nat] in
       let g' := Game.endRound 0.5 g in
       ((2 < getRemainingCasesCount (Game.board g))%nat ->
        exists offer,
          Banker.offers (Game.banker g') = Banker.offers (Game.banker g) ++ [offer]
          /\ Banker.getCurrentOffer (Game.banker g') = offer
          /\ Game.gameState g' = Game.banker_offer
          /\ Game.eliminatedThisRound g' = 0%nat)
       /\ ((getRemainingCasesCount (Game.board g) <= 2)%nat ->
           Game.banker g' = Game.banker g
           /\ (Game.gameState g' = Game.game_over
               \/ Game.gameState g' = Game.gameState g)).
Proof.
  apply (session_round_end Session.draws Session.draws [Game.Click 4%nat] 0.5);
    intros i; unfold Session.draws; split; discriminate || reflexivity.
Defined.

Lemma fresh_length (b : t) : fresh b -> length (briefcases b) = 26%nat.
Proof.
  intros (Hnum & _). apply (f_equal length) in Hnum.
  rewrite length_map in Hnum. exact Hnum.
Qed.

Lemma fresh_number (b : t) (k : nat) (c : briefcase) :
  fresh b -> briefcases b !! k = Some c -> number c = (1 + k)%nat /\ (k < 26)%nat.
Proof.
  intros (Hnum & _) Hk.
  assert (H : map number (briefcases b) !! k = Some (number c))
    by (rewrite list_lookup_fmap, Hk; reflexivity).
  rewrite Hnum in H. apply lookup_seq in H. exact H.
Qed.

Lemma fresh_getBriefcase (b : t) (n : nat) :
  fresh b ->
  ((1 <= n <= 26)%nat ->
   exists c, getBriefcase b n = Some ((n - 1)%nat, c)
             /\ isSelected c = false /\ isEliminated c = false)
  /\ (~ (1 <= n <= 26)%nat -> getBriefcase b n = None).
Proof.
  intros Hfresh. split.
  - intros Hn.
    destruct (lookup_lt_is_Some_2 (briefcases b) (n - 1)) as [c Hc];
      [rewrite (fresh_length b Hfresh); lia|].
    exists c. split.
    + apply list_find_Some. split; [exact Hc|]. split.
      * destruct (fresh_number b _ c Hfresh Hc). lia.
      * intros j y Hj Hlt. destruct (fresh_number b _ y Hfresh Hj). lia.
    + destruct Hfresh as (_ & Hflags & _).
      exact (proj1 (Forall_lookup _ _) Hflags _ _ Hc).
  - intros Hn. apply list_find_None. apply Forall_lookup. intros k c Hk.
    destruct (fresh_number b _ c Hfresh Hk). lia.
Qed.

Lemma fresh_counts (b : t) :
  fresh b ->
  selectedCount (briefcases b) = 0%nat /\ getRemainingCasesCount b = 26%nat.
Proof.
  intros Hfresh. pose proof (fresh_length b Hfresh) as Hlen.
  destruct Hfresh as (_ & Hflags & _).
  unfold selectedCount, getRemainingCasesCount. rewrite <- Hlen. clear Hlen.
  induction Hflags as [|c bs [Hs He] _ [IH1 IH2]]; [split; reflexivity|].
  rewrite !filter_cons.
  destruct (decide (isSelected c = true)); [congruence|].
  destruct (decide (isEliminated c = false)); [|congruence].
  simpl. split; [exact IH1|rewrite IH2; reflexivity].
Qed.

(** X24. The first click of a game.  A new game waits for the player's
    case; a click on a number from 1 to 26 selects that briefcase and no
    other, keeps all 26 cases in play, and starts round one with a quota of
    six; a click on any other number leaves the game as it was. *)
Theorem first_click_selects (random0 random : nat -> Q) (n : nat) :
  exists g0,
    Game.create random0 random = Return g0
    /\ Game.gameState g0 = Game.selecting
    /\ ((1 <= n <= 26)%nat ->
        let g1 := Game.step g0 (Game.Click n) in
        Game.gameState g1 = Game.playing
        /\ Game.casesToEliminate g1 = 6%nat
        /\ (exists c, getChosenCase (Game.board g1) = Some c /\ number c = n)
        /\ isCaseSelected (Game.board g1) n = true
        /\ isCaseAvailable (Game.board g1) n = false
        /\ selectedCount (briefcases (Game.board g1)) = 1%nat
        /\ getRemainingCasesCount (Game.board g1) = 26%nat)
    /\ (~ (1 <= n <= 26)%nat -> Game.step g0 (Game.Click n) = g0).
Proof.
  destruct (create_game random0 random) as (b & Hfresh & _ & Hcreate).
  eexists. split; [exact Hcreate|]. split; [reflexivity|].
  destruct (fresh_getBriefcase b n Hfresh) as [Hin Hout].
  destruct (fresh_counts b Hfresh) as [Hzero Hcount].
  split.
  - intros Hn. destruct (Hin Hn) as (c & Hget & Hs & He).
    assert (Hel : hasElement b n = true).
    { unfold hasElement. apply bool_decide_eq_true.
      destruct Hfresh as (_ & _ & _ & _ & -> & _). apply elem_of_seq. lia. }
    assert (Hselect : selectBriefcase b n = (true, snd (selectBriefcase b n))).
    { unfold selectBriefcase. rewrite Hget, Hel. reflexivity. }
    destruct (selectBriefcase_read_back b _ n Hzero Hselect)
      as (c' & Hchosen & Hnum & _ & Hsel & Havail & Hone & _).
    cbv zeta. unfold Game.step, Game.click. cbn [Game.board].
    unfold handleBriefcaseClick. rewrite Hget, He.
    unfold Game.handleBriefcaseClick. cbn [Game.gameState].
    unfold Game.selectPlayerCase. cbn.
    split; [reflexivity|]. split; [reflexivity|].
    split; [eauto|]. repeat split; auto.
    unfold getRemainingCasesCount.
    rewrite (count_by_flags _ (briefcases b)); [exact Hcount|].
    apply selectBriefcase_map. reflexivity.
  - intros Hn. unfold Game.step, Game.click. cbn [Game.board].
    unfold handleBriefcaseClick. rewrite (Hout Hn). reflexivity.
Qed.

Lemma first_click_selects_witness :
  Game.gameState (Game.step Session.newGame (Game.Click 4)) = Game.playing.
Proof.
  destruct (first_click_selects Session.draws Session.draws 4)
    as (g0 & Hcreate & _ & Hin & _).
  rewrite newGame_created in Hcreate. injection Hcreate as <-.
  apply Hin. lia.
Defined.

(** X25. The quota chosen after a rejected offer can always be met and never
    empties the board: with three or more cases left it is between 1 and 5,
    and opening that many cases leaves at least two. *)
Theorem quota_leaves_two_cases (g : Game.t) :
  (3 <= getRemainingCasesCount (Game.board g))%nat ->
  let quota := Game.casesToEliminate (Game.handleDealRejected g) in
  (1 <= quota <= 5)%nat
  /\ (quota + 2 <= getRemainingCasesCount (Game.board g))%nat.
Proof.
  intros Hcount. cbv zeta. unfold Game.handleDealRejected. simpl.
  set (n := getRemainingCasesCount (Game.board g)) in *.
  destruct (Nat.ltb_spec 10 n); [lia|].
  destruct (Nat.ltb_spec 6 n); [lia|].
  destruct (Nat.ltb_spec 3 n); lia.
Qed.

Lemma quota_leaves_two_cases_witness :
  (1 <= Game.casesToEliminate (Game.handleDealRejected Session.fifthOffer) <= 5)%nat
  /\ (Game.casesToEliminate (Game.handleDealRejected Session.fifthOffer) + 2
      <= getRemainingCasesCount (Game.board Session.fifthOffer))%nat.
Proof.
  apply (quota_leaves_two_cases Session.fifthOffer).
  vm_compute. lia.
Defined.

End GameMore.
